(** * Verification of the workflow run record and the issue-merge tools
    of swissarmyhammer.

    Sources embedded here:
    - src/swissarmyhammer/src/workflow/run.rs
      ([WorkflowRunId::new], [WorkflowRunId::parse], its [Display],
      [WorkflowRun::new], [transition_to], [complete], [fail]);
    - src/swissarmyhammer-tools/src/mcp/tools/issues/merge/mod.rs
      ([MergeIssueTool::execute]);
    - src/swissarmyhammer/src/mcp/tool_handlers.rs
      ([ToolHandlers::handle_issue_work], [ToolHandlers::handle_issue_merge],
      [ToolHandlers::handle_issue_current],
      [ToolHandlers::check_working_directory_clean]).

    Time is an input: every call to [chrono::Utc::now()] is a parameter
    [now : Z] (nanoseconds since the epoch) supplied by the caller. *)

From Stdlib Require Import ZArith List String Ascii Bool Lia Sorting.Sorted.
Import ListNotations.
Local Set Warnings "-register-all".
Open Scope Z_scope.
Open Scope string_scope.

(* ------------------------------------------------------------------ *)
(** ** Basic data *)

(** [chrono::DateTime<chrono::Utc>] as nanoseconds since the epoch. *)
Definition Timestamp := Z.

(** [StateId] is a newtype around a string. *)
Definition StateId := string.

(** A [serde_json::Value]. *)
Inductive JsonValue :=
| JNull
| JBool (b : bool)
| JNumber (n : Z)
| JString (s : string)
| JArray (xs : list JsonValue)
| JObject (kvs : list (string * JsonValue)).

(** A [HashMap<K, V>] as its list of entries. *)
Definition HashMap (K V : Type) := list (K * V).

(** The parts of [Workflow] that [run.rs] reads. *)
Record Workflow := mkWorkflow {
  wf_name : string;
  wf_description : string;
  wf_initial_state : StateId;
  wf_states : list StateId
}.

Inductive WorkflowRunStatus :=
| Running
| Completed
| Failed
| Cancelled
| Paused.

(** [WorkflowRunId(Ulid)]: a ULID is a [u128]. *)
Definition WorkflowRunId := Z.

Record WorkflowRun := mkWorkflowRun {
  id : WorkflowRunId;
  workflow : Workflow;
  current_state : StateId;
  history : list (StateId * Timestamp);
  context : HashMap string JsonValue;
  status : WorkflowRunStatus;
  started_at : Timestamp;
  completed_at : option Timestamp;
  metadata : HashMap string string
}.

(* ------------------------------------------------------------------ *)
(** ** The abort marker file and the log *)

Inductive IoErrorKind :=
| NotFound
| PermissionDenied
| OtherIoError.

(** The part of the file system [WorkflowRun::new] touches: whether
    [.swissarmyhammer/.abort] exists, and the error the operating system
    reports when removing it fails (e.g. a permission problem). *)
Record FileSystem := mkFileSystem {
  abort_file_exists : bool;
  abort_remove_error : option IoErrorKind
}.

Inductive LogLevel := LDebug | LInfo | LWarn | LError.

Definition LogLine := (LogLevel * string)%type.

(** [std::fs::remove_file(".swissarmyhammer/.abort")]. *)
Definition remove_abort_file (fs : FileSystem) : (unit + IoErrorKind) * FileSystem :=
  if abort_file_exists fs then
    match abort_remove_error fs with
    | None => (inl tt, mkFileSystem false None)
    | Some k => (inr k, fs)
    end
  else (inr NotFound, fs).

Definition io_error_text (k : IoErrorKind) : string :=
  match k with
  | NotFound => "No such file or directory"
  | PermissionDenied => "Permission denied"
  | OtherIoError => "I/O error"
  end.

(* ------------------------------------------------------------------ *)
(** ** [WorkflowRun] operations *)

(** [WorkflowRun::new]. [fresh_id] is the value of [WorkflowRunId::new()]
    and [now] the value of [chrono::Utc::now()] at the call. *)
Definition WorkflowRun_new (fs : FileSystem) (fresh_id : WorkflowRunId)
    (now : Timestamp) (w : Workflow) : WorkflowRun * FileSystem * list LogLine :=
  let '(r, fs') := remove_abort_file fs in
  let logs :=
    match r with
    | inl tt => [(LDebug, "Cleaned up existing abort file")]
    | inr NotFound => []
    | inr k => [(LWarn, "Failed to clean up abort file: " ++ io_error_text k)]
    end in
  let initial_state := wf_initial_state w in
  (mkWorkflowRun fresh_id w initial_state [(initial_state, now)] []
     Running now None [], fs', logs).

(** [WorkflowRun::transition_to]. *)
Definition transition_to (r : WorkflowRun) (state_id : StateId) (now : Timestamp)
    : WorkflowRun :=
  mkWorkflowRun (id r) (workflow r) state_id (history r ++ [(state_id, now)])
    (context r) (status r) (started_at r) (completed_at r) (metadata r).

(** [WorkflowRun::complete]. *)
Definition complete (r : WorkflowRun) (now : Timestamp) : WorkflowRun :=
  mkWorkflowRun (id r) (workflow r) (current_state r) (history r)
    (context r) Completed (started_at r) (Some now) (metadata r).

(** [WorkflowRun::fail]. *)
Definition fail (r : WorkflowRun) (now : Timestamp) : WorkflowRun :=
  mkWorkflowRun (id r) (workflow r) (current_state r) (history r)
    (context r) Failed (started_at r) (Some now) (metadata r).

(** The mutating calls a caller can make on a run, each with the clock
    reading it gets. *)
Inductive RunOp :=
| OpTransitionTo (s : StateId) (now : Timestamp)
| OpComplete (now : Timestamp)
| OpFail (now : Timestamp).

Definition apply_op (r : WorkflowRun) (op : RunOp) : WorkflowRun :=
  match op with
  | OpTransitionTo s now => transition_to r s now
  | OpComplete now => complete r now
  | OpFail now => fail r now
  end.

Definition run_ops (r : WorkflowRun) (ops : list RunOp) : WorkflowRun :=
  fold_left apply_op ops r.

(** The run built by [WorkflowRun::new] (file-system effect dropped). *)
Definition new_run (fs : FileSystem) (fresh_id : WorkflowRunId) (now : Timestamp)
    (w : Workflow) : WorkflowRun :=
  fst (fst (WorkflowRun_new fs fresh_id now w)).


(* ------------------------------------------------------------------ *)
(** ** ULIDs: [WorkflowRunId::new] and [impl Display for WorkflowRunId] *)

(** Layout of a [Ulid] (the [ulid] crate): 48 timestamp bits above 80
    random bits in a [u128]. *)
Definition TIME_BITS : Z := 48.
Definition RAND_BITS : Z := 80.
Definition ULID_LEN : nat := 26.
Definition U128_MAX : Z := Z.ones 128.

(** Crockford's base 32 alphabet used by the [ulid] crate. *)
Definition ALPHABET : string := "0123456789ABCDEFGHJKMNPQRSTVWXYZ".

(** [Ulid::from_parts]. *)
Definition ulid_from_parts (timestamp_ms random : Z) : Z :=
  Z.lor (Z.shiftl (Z.land timestamp_ms (Z.ones TIME_BITS)) RAND_BITS)
        (Z.land random (Z.ones RAND_BITS)).

(** [Ulid::timestamp_ms]. *)
Definition ulid_timestamp_ms (u : Z) : Z := Z.shiftr u RAND_BITS.

Definition alphabet_char (i : Z) : ascii :=
  match get (Z.to_nat i) ALPHABET with Some c => c | None => "0"%char end.

(** The [ulid] crate's [encode_to_array]: the buffer is filled from its
    last byte, five bits of [value] at a time.  [encode_digits k v] is the
    last [k] bytes of that buffer. *)
Fixpoint encode_digits (k : nat) (value : Z) : string :=
  match k with
  | O => ""
  | S k' => encode_digits k' (Z.shiftr value 5)
              ++ String (alphabet_char (Z.land value 31)) ""
  end.

(** [impl Display for WorkflowRunId]: [write!(f, "{}", self.0)], i.e. the
    26-character Crockford encoding of the ULID. *)
Definition WorkflowRunId_to_string (u : WorkflowRunId) : string :=
  encode_digits ULID_LEN u.

(** Modelled from the spec: [crate::common::generate_monotonic_ulid], the
    body of [WorkflowRunId::new], is not in the sources.  The spec asks for
    a process-wide generator whose identifiers increase even within one
    clock tick, using a counter as tie-break.  [previous] is the last ULID
    handed out in the process, [now_ms] the clock reading in milliseconds
    and [random] the fresh random bits: a new timestamp gives a fresh ULID,
    otherwise the previous one is incremented (as a [u128]). *)
Definition generate_monotonic_ulid (previous now_ms random : Z) : Z :=
  if (now_ms <=? ulid_timestamp_ms previous)%Z
  then Z.land (previous + 1) U128_MAX
  else ulid_from_parts now_ms random.

(** The identifiers of successive [WorkflowRunId::new()] calls in one
    process, given the clock reading and random bits of each call. *)
Fixpoint WorkflowRunId_new_seq (previous : Z) (readings : list (Z * Z))
    : list WorkflowRunId :=
  match readings with
  | [] => []
  | (now_ms, random) :: rest =>
      let u := generate_monotonic_ulid previous now_ms random in
      u :: WorkflowRunId_new_seq u rest
  end.

(* ------------------------------------------------------------------ *)
(** ** Rust string operations used by the merge tools *)

Definition newline : string := String (ascii_of_nat 10) "".

(** [str::contains] with a string pattern. *)
Fixpoint str_contains (pat s : string) : bool :=
  prefix pat s ||
  match s with
  | EmptyString => false
  | String _ s' => str_contains pat s'
  end.

Fixpoint split_aux (sep : ascii) (s cur : string) : list string :=
  match s with
  | EmptyString => [cur]
  | String c s' =>
      if Ascii.eqb c sep then cur :: split_aux sep s' ""
      else split_aux sep s' (cur ++ String c "")
  end.

(** [info.split('|').collect::<Vec<&str>>()]: a Rust string is its UTF-8
    bytes, and ['|'] is one byte. *)
Definition split_on (sep : ascii) (s : string) : list string :=
  split_aux sep s "".

(** [str::is_char_boundary]: index [n] is [0], the length, or the index of
    a byte that is not a UTF-8 continuation byte [0b10xxxxxx]. *)
Definition is_char_boundary (s : string) (n : nat) : bool :=
  (n =? 0)%nat ||
  match get n s with
  | None => (n =? String.length s)%nat
  | Some c => let b := nat_of_ascii c in (b <? 128)%nat || (192 <=? b)%nat
  end.

(** [&s[..n]]: [None] is the panic of an out-of-range or mid-character
    index. *)
Definition str_slice_to (s : string) (n : nat) : option string :=
  if (n <=? String.length s)%nat && is_char_boundary s n
  then Some (substring 0 n s) else None.

Definition slice_panic_message : string :=
  "byte index 8 is out of bounds or not a char boundary".

Fixpoint decimal_aux (fuel n : nat) (acc : string) : string :=
  match fuel with
  | O => acc
  | S f =>
      let acc' := String (ascii_of_nat (48 + n mod 10)) acc in
      if (n <? 10)%nat then acc' else decimal_aux f (n / 10) acc'
  end.

(** [format!("{}", n)] for an unsigned number. *)
Definition decimal (n : nat) : string := decimal_aux (S n) n "".

(** [format!("{:0width$}", n)]. *)
Definition zero_pad (width : nat) (s : string) : string :=
  append (string_of_list_ascii (repeat "0"%char (width - String.length s))) s.

(** [status.trim().is_empty()]: only whitespace. *)
Definition is_blank (s : string) : bool :=
  forallb (fun c => let b := nat_of_ascii c in
                    (b =? 32)%nat || ((9 <=? b)%nat && (b <=? 13)%nat))
          (list_ascii_of_string s).

(* ------------------------------------------------------------------ *)
(** ** Errors, responses and the lock trace *)

(** A [SwissArmyHammerError], by its [Display] text ([e.to_string()]). *)
Record SahError := mkSahError { sah_error_text : string }.

(** The value of [McpErrorHandler::handle_error(e, operation)]: an
    [rmcp::Error], i.e. a protocol-level failure.  Its body is not in the
    sources; it is kept as the pair of its arguments. *)
Inductive McpError :=
| McpHandled (e : SahError) (operation : string).

(** [create_success_response] / [create_error_response]. *)
Inductive CallToolResult :=
| SuccessResponse (msg : string)
| ErrorResponse (msg : string).

(** What an [async fn ... -> Result<CallToolResult, McpError>] ends with:
    [Ok], [Err], or a panic. *)
Inductive ToolOutcome :=
| ROk (r : CallToolResult)
| RErr (e : McpError)
| RPanic (msg : string).

(** The two shared resources: the [RwLock] around the issue storage (read
    side) and the [Mutex] around [Option<GitOperations>]. *)
Inductive Lock := IssueStorageRead | GitOpsMutex.

Inductive Event :=
| EvAcquire (l : Lock)
| EvRelease (l : Lock)
| EvLog (line : LogLine).

Definition lock_step (held : bool * bool) (ev : Event) : bool * bool :=
  let '(issue, git) := held in
  match ev with
  | EvAcquire IssueStorageRead => (true, git)
  | EvAcquire GitOpsMutex => (issue, true)
  | EvRelease IssueStorageRead => (false, git)
  | EvRelease GitOpsMutex => (issue, false)
  | EvLog _ => (issue, git)
  end.

(** Whether, at some point of the trace, both guards are alive. *)
Fixpoint both_held_from (held : bool * bool) (tr : list Event) : bool :=
  (fst held && snd held) ||
  match tr with
  | [] => false
  | ev :: tr' => both_held_from (lock_step held ev) tr'
  end.

Definition both_locks_held (tr : list Event) : bool :=
  both_held_from (false, false) tr.

Definition acquires (l : Lock) (tr : list Event) : bool :=
  existsb (fun ev => match ev, l with
                     | EvAcquire IssueStorageRead, IssueStorageRead
                     | EvAcquire GitOpsMutex, GitOpsMutex => true
                     | _, _ => false
                     end) tr.

(* ------------------------------------------------------------------ *)
(** ** Issue storage *)

Record Issue := mkIssue {
  issue_number : nat;
  issue_name : string;
  issue_content : string;
  issue_completed : bool
}.

Record IssueInfo := mkIssueInfo {
  info_issue : Issue;
  info_completed : bool
}.

(** Modelled from the spec: the [IssueStorage] implementation is not in
    the sources; the spec gives its interface [get(id) -> Issue] with a
    [completed] flag.  The store is the list of its issues. *)
Definition get_issue_info (store : list Issue) (name : string)
    : IssueInfo + SahError :=
  match find (fun i => String.eqb (issue_name i) name) store with
  | Some i => inl (mkIssueInfo i (issue_completed i))
  | None => inr (mkSahError ("Issue not found: " ++ name))
  end.

(** Modelled from the spec: [IssueStorage::get_issue] by number. *)
Definition get_issue (store : list Issue) (number : nat) : Issue + SahError :=
  match find (fun i => Nat.eqb (issue_number i) number) store with
  | Some i => inl i
  | None => inr (mkSahError ("Issue not found: " ++ decimal number))
  end.

(* ------------------------------------------------------------------ *)
(** ** Version control *)

(** The repository behind a [GitOperations] handle: the current branch,
    every branch with the branch it was created from, the merges performed
    (source, target), and the answers of the external [git] process that
    the handle only relays (a failure [git merge] reports, such as a
    conflict; the output of [git log -1]; a failure of [git branch -D];
    the output of [git status --porcelain]; a failure [git] reports when
    it creates or switches to a branch). *)
Record GitOperations := mkGitOperations {
  git_current_branch : string;
  git_branches : list (string * option string);
  git_merges : list (string * string);
  git_merge_failure : option SahError;
  git_last_commit : string + SahError;
  git_delete_failure : option SahError;
  git_status_porcelain : string + SahError;
  git_switch_failure : option SahError
}.

Definition with_branches (ops : GitOperations) (current : string)
    (bs : list (string * option string)) (ms : list (string * string))
    : GitOperations :=
  mkGitOperations current bs ms (git_merge_failure ops) (git_last_commit ops)
    (git_delete_failure ops) (git_status_porcelain ops) (git_switch_failure ops).

Definition branch_parent (ops : GitOperations) (b : string)
    : option (option string) :=
  match find (fun p => String.eqb (fst p) b) (git_branches ops) with
  | Some (_, parent) => Some parent
  | None => None
  end.

Definition ISSUE_BRANCH_PREFIX : string := "issue/".

(** [MergeIssueTool::format_issue_branch_name]. *)
Definition format_issue_branch_name (issue_name : string) : string :=
  "issue/" ++ issue_name.

(** Modelled from the spec: [GitOperations::find_merge_target_branch] is
    not in the sources.  The spec: the target is found by walking the
    branch ancestry (merge-base), so a branch created from a non-trunk
    parent resolves to that parent. *)
Definition find_merge_target_branch (ops : GitOperations) (issue_name : string)
    : string + SahError :=
  let b := ISSUE_BRANCH_PREFIX ++ issue_name in
  match branch_parent ops b with
  | None => inr (mkSahError ("Branch '" ++ b ++ "' does not exist"))
  | Some None => inr (mkSahError ("Cannot determine merge target for " ++ b))
  | Some (Some parent) => inl parent
  end.

Definition record_merge (ops : GitOperations) (source target : string)
    : GitOperations :=
  with_branches ops target (git_branches ops) ((source, target) :: git_merges ops).

(** Modelled from the spec: [GitOperations::merge_issue_branch_auto], the
    merge-base variant: merge [issue/<name>] into the target found by
    [find_merge_target_branch]. *)
Definition merge_issue_branch_auto (ops : GitOperations) (issue_name : string)
    : GitOperations + SahError :=
  match find_merge_target_branch ops issue_name with
  | inr e => inr e
  | inl target =>
      match git_merge_failure ops with
      | Some e => inr e
      | None => inl (record_merge ops (ISSUE_BRANCH_PREFIX ++ issue_name) target)
      end
  end.

(** Modelled from the spec: [GitOperations::merge_issue_branch], the
    variant that assumes a fixed trunk ("main"). *)
Definition merge_issue_branch (ops : GitOperations) (issue_name : string)
    : GitOperations + SahError :=
  let b := ISSUE_BRANCH_PREFIX ++ issue_name in
  match branch_parent ops b with
  | None => inr (mkSahError ("Branch '" ++ b ++ "' does not exist"))
  | Some _ =>
      match git_merge_failure ops with
      | Some e => inr e
      | None => inl (record_merge ops b "main")
      end
  end.

(** Modelled from the spec: [GitOperations::delete_branch]. *)
Definition delete_branch (ops : GitOperations) (b : string)
    : GitOperations + SahError :=
  match git_delete_failure ops with
  | Some e => inr e
  | None =>
      inl (with_branches ops (git_current_branch ops)
             (filter (fun p => negb (String.eqb (fst p) b)) (git_branches ops))
             (git_merges ops))
  end.

(** Modelled from the spec: [GitOperations::get_last_commit_info],
    ["hash|message|author|date"]. *)
Definition get_last_commit_info (ops : GitOperations) : string + SahError :=
  git_last_commit ops.

(** Modelled from the spec: [GitOperations::create_work_branch]: switch to
    [issue/<name>], creating it from the current branch when missing; it
    fails, leaving the repository as it was, when [git] reports a failure
    for the switch. *)
Definition create_work_branch (ops : GitOperations) (issue_name : string)
    : (string * GitOperations) + SahError :=
  let b := ISSUE_BRANCH_PREFIX ++ issue_name in
  match git_switch_failure ops with
  | Some e => inr e
  | None =>
      match branch_parent ops b with
      | Some _ => inl (b, with_branches ops b (git_branches ops) (git_merges ops))
      | None =>
          inl (b, with_branches ops b
                    ((b, Some (git_current_branch ops)) :: git_branches ops)
                    (git_merges ops))
      end
  end.

(** [ToolHandlers::check_working_directory_clean]: runs
    [git status --porcelain] and fails when its output is not blank. *)
Definition check_working_directory_clean (ops : GitOperations) : unit + SahError :=
  match git_status_porcelain ops with
  | inr e =>
      inr (mkSahError ("Git operation 'git status check' failed: " ++ sah_error_text e))
  | inl status =>
      if negb (is_blank status)
      then inr (mkSahError "Working directory is not clean - there are uncommitted changes")
      else inl tt
  end.

(* ------------------------------------------------------------------ *)
(** ** The merge tools *)

(** The commit-information suffix built after a successful merge (the
    [match ops.get_last_commit_info()] block, the same in both tools);
    [None] is the panic of [&parts[0][..8]]. *)
Definition commit_info_section (r : string + SahError) : option string :=
  match r with
  | inl info =>
      let parts := split_on "|"%char info in
      if (4 <=? List.length parts)%nat then
        match str_slice_to (nth 0 parts "") 8 with
        | Some hash =>
            Some (newline ++ newline ++ "Merge commit: " ++ hash
                  ++ newline ++ "Message: " ++ nth 1 parts ""
                  ++ newline ++ "Author: " ++ nth 2 parts ""
                  ++ newline ++ "Date: " ++ nth 3 parts "")
        | None => None
        end
      else Some (newline ++ newline ++ "Merge commit: " ++ info)
  | inr _ => Some ""
  end.

(** The optional [delete_branch] step after a successful merge. *)
Definition delete_after_merge (delete : bool) (ops : GitOperations)
    (branch_name success_message : string) : string * GitOperations :=
  if delete then
    match delete_branch ops branch_name with
    | inl ops' => (success_message ++ " and deleted branch " ++ branch_name, ops')
    | inr e => (success_message ++ " but failed to delete branch: " ++ sah_error_text e, ops)
    end
  else (success_message, ops).

(** The marker test of the merge-failure branch of [MergeIssueTool::execute]. *)
Definition is_irrecoverable_merge_error (error_string : string) : bool :=
  str_contains "does not exist" error_string
  || str_contains "deleted" error_string
  || str_contains "CONFLICT" error_string
  || str_contains "Automatic merge failed" error_string.

(** [MergeIssueRequest] of the tools crate (arguments already parsed). *)
Record MergeIssueRequest := mkMergeIssueRequest {
  req_name : string;
  req_delete_branch : bool
}.

(** [MergeIssueTool::execute].  Returns the outcome, the trace of guard
    acquisitions and releases (and log lines), and the content of the git
    mutex afterwards.  The read guard [issue_storage] taken at line 66 is a
    local of the whole function: it is dropped on return, after
    [git_ops] (locals are dropped in reverse order of declaration), and on
    unwinding as well. *)
Definition MergeIssueTool_execute (store : list Issue) (git : option GitOperations)
    (request : MergeIssueRequest) : ToolOutcome * list Event * option GitOperations :=
  let tr0 := [EvAcquire IssueStorageRead] in
  match get_issue_info store (req_name request) with
  | inr e =>
      (RErr (McpHandled e "get issue for merge"), app tr0 [EvRelease IssueStorageRead], git)
  | inl issue_info =>
      if negb (info_completed issue_info) then
        (ROk (ErrorResponse ("Issue '" ++ req_name request ++ "' must be completed before merging")),
         app tr0 [EvRelease IssueStorageRead], git)
      else
        let tr1 := app tr0 [EvAcquire GitOpsMutex] in
        let drops := [EvRelease GitOpsMutex; EvRelease IssueStorageRead] in
        let issue_name := issue_name (info_issue issue_info) in
        match git with
        | None => (ROk (ErrorResponse "Git operations not available"), app tr1 drops, None)
        | Some ops =>
            match merge_issue_branch_auto ops issue_name with
            | inl ops1 =>
                let target_branch :=
                  match find_merge_target_branch ops1 issue_name with
                  | inl t => t
                  | inr _ => "main"
                  end in
                let success_message :=
                  "Merged work branch for issue " ++ issue_name ++ " to " ++ target_branch
                  ++ " (determined by git merge-base)" in
                match commit_info_section (get_last_commit_info ops1) with
                | None => (RPanic slice_panic_message, app tr1 drops, Some ops1)
                | Some commit_info =>
                    let '(msg, ops2) :=
                      delete_after_merge (req_delete_branch request) ops1
                        (format_issue_branch_name issue_name) success_message in
                    (ROk (SuccessResponse (msg ++ commit_info)), app tr1 drops, Some ops2)
                end
            | inr e =>
                let error_string := sah_error_text e in
                let logs :=
                  EvLog (LError, "Merge failed for issue '" ++ issue_name ++ "': " ++ error_string)
                  :: (if is_irrecoverable_merge_error error_string
                      then [EvLog (LInfo, "Detected irrecoverable merge error for issue '"
                                          ++ issue_name ++ "': " ++ error_string)]
                      else []) in
                (RErr (McpHandled e "merge issue branch"), app tr1 (app logs drops), Some ops)
            end
        end
  end.

(** [ISSUE_NUMBER_WIDTH] of the [mcp::types] module. *)
Definition ISSUE_NUMBER_WIDTH : nat := 6.

(** [format!("{:0width$}_{}", issue.number, issue.name, width = ISSUE_NUMBER_WIDTH)]. *)
Definition format_issue_name (number : nat) (name : string) : string :=
  zero_pad ISSUE_NUMBER_WIDTH (decimal number) ++ "_" ++ name.

(** [WorkIssueRequest] and the [MergeIssueRequest] of the core crate. *)
Record WorkIssueRequest := mkWorkIssueRequest { work_number : nat }.

Record NumberedMergeRequest := mkNumberedMergeRequest {
  merge_number : nat;
  merge_delete_branch : bool
}.

(** [ToolHandlers::handle_issue_work]. *)
Definition handle_issue_work (store : list Issue) (git : option GitOperations)
    (request : WorkIssueRequest) : ToolOutcome * list Event * option GitOperations :=
  let tr0 := [EvAcquire IssueStorageRead] in
  match get_issue store (work_number request) with
  | inr e =>
      (ROk (ErrorResponse ("Failed to get issue " ++ decimal (work_number request)
                           ++ ": " ++ sah_error_text e)),
       app tr0 [EvRelease IssueStorageRead], git)
  | inl issue =>
      (* drop(issue_storage), then lock git_ops *)
      let tr1 := app tr0 [EvRelease IssueStorageRead; EvAcquire GitOpsMutex] in
      let issue_name := format_issue_name (issue_number issue) (issue_name issue) in
      match git with
      | Some ops =>
          match create_work_branch ops issue_name with
          | inl (branch_name, ops') =>
              (ROk (SuccessResponse ("Switched to work branch: " ++ branch_name)),
               app tr1 [EvRelease GitOpsMutex], Some ops')
          | inr e =>
              (ROk (ErrorResponse ("Failed to create work branch: " ++ sah_error_text e)),
               app tr1 [EvRelease GitOpsMutex], Some ops)
          end
      | None =>
          (ROk (ErrorResponse "Git operations not available"),
           app tr1 [EvRelease GitOpsMutex], None)
      end
  end.

(** [ToolHandlers::handle_issue_merge]. *)
Definition handle_issue_merge (store : list Issue) (git : option GitOperations)
    (request : NumberedMergeRequest) : ToolOutcome * list Event * option GitOperations :=
  let tr0 := [EvAcquire IssueStorageRead] in
  match get_issue store (merge_number request) with
  | inr e =>
      (ROk (ErrorResponse ("Failed to get issue " ++ decimal (merge_number request)
                           ++ ": " ++ sah_error_text e)),
       app tr0 [EvRelease IssueStorageRead], git)
  | inl issue =>
      (* drop(issue_storage) *)
      let tr1 := app tr0 [EvRelease IssueStorageRead] in
      if negb (issue_completed issue) then
        (ROk (ErrorResponse ("Issue " ++ decimal (merge_number request)
                             ++ " is not completed. Only completed issues can be merged.")),
         tr1, git)
      else
        (* git_ops_guard *)
        let tr2 := app tr1 [EvAcquire GitOpsMutex] in
        let clean := match git with
                     | Some ops => check_working_directory_clean ops
                     | None => inl tt
                     end in
        match clean with
        | inr e =>
            (ROk (ErrorResponse ("Working directory is not clean. Please commit or stash changes before merging: "
                                 ++ sah_error_text e)),
             app tr2 [EvRelease GitOpsMutex], git)
        | inl _ =>
            (* drop(git_ops_guard), then lock git_ops again *)
            let tr3 := app tr2 [EvRelease GitOpsMutex; EvAcquire GitOpsMutex] in
            let issue_name := format_issue_name (issue_number issue) (issue_name issue) in
            match git with
            | None => (ROk (ErrorResponse "Git operations not available"),
                       app tr3 [EvRelease GitOpsMutex], None)
            | Some ops =>
                match merge_issue_branch ops issue_name with
                | inl ops1 =>
                    let success_message :=
                      "Merged work branch for issue " ++ issue_name ++ " to main" in
                    match commit_info_section (get_last_commit_info ops1) with
                    | None => (RPanic slice_panic_message, app tr3 [EvRelease GitOpsMutex], Some ops1)
                    | Some commit_info =>
                        let '(msg, ops2) :=
                          delete_after_merge (merge_delete_branch request) ops1
                            ("issue/" ++ issue_name) success_message in
                        (ROk (SuccessResponse (msg ++ commit_info)),
                         app tr3 [EvRelease GitOpsMutex], Some ops2)
                    end
                | inr e =>
                    (ROk (ErrorResponse ("Failed to merge branch: " ++ sah_error_text e)),
                     app tr3 [EvRelease GitOpsMutex], Some ops)
                end
            end
        end
  end.

(* ------------------------------------------------------------------ *)
(** ** [WorkflowRunId::parse] and [ToolHandlers::handle_issue_current] *)

(** [ulid::DecodeError], with its [Display] text. *)
Inductive DecodeError := InvalidLength | InvalidChar.

Definition decode_error_text (e : DecodeError) : string :=
  match e with
  | InvalidLength => "invalid length"
  | InvalidChar => "invalid character"
  end.

Fixpoint index_of (c : ascii) (s : string) (i : Z) : option Z :=
  match s with
  | EmptyString => None
  | String c' s' => if Ascii.eqb c c' then Some i else index_of c s' (i + 1)
  end.

Definition ascii_to_upper (c : ascii) : ascii :=
  let n := nat_of_ascii c in
  if ((97 <=? n)%nat && (n <=? 122)%nat) then ascii_of_nat (n - 32) else c.

(** The [LOOKUP] table of the [ulid] crate's base32 module: each character
    of [ALPHABET], in either case, has its position as value; every other
    byte ([I], [L], [O], [U] included) has none. *)
Definition lookup_value (c : ascii) : option Z :=
  index_of (ascii_to_upper c) ALPHABET 0.

(** The loop of the [ulid] crate's [decode]: [value = (value << 5) | val]
    on a [u128], so the bits shifted out above bit 127 are lost. *)
Fixpoint decode_bytes (value : Z) (s : string) : Z + DecodeError :=
  match s with
  | EmptyString => inl value
  | String c s' =>
      match lookup_value c with
      | Some val => decode_bytes (Z.land (Z.lor (Z.shiftl value 5) val) U128_MAX) s'
      | None => inr InvalidChar
      end
  end.

(** [Ulid::from_string], i.e. the [ulid] crate's [decode]. *)
Definition ulid_decode (encoded : string) : Z + DecodeError :=
  if negb (String.length encoded =? ULID_LEN)%nat then inr InvalidLength
  else decode_bytes 0 encoded.

(** [WorkflowRunId::parse]. *)
Definition WorkflowRunId_parse (s : string) : WorkflowRunId + string :=
  match ulid_decode s with
  | inl u => inl u
  | inr e => inr ("Invalid workflow run ID '" ++ s ++ "': " ++ decode_error_text e)
  end.

(** [str::strip_prefix] with a string pattern. *)
Fixpoint strip_prefix (p s : string) : option string :=
  match p, s with
  | EmptyString, _ => Some s
  | String a p', String b s' => if Ascii.eqb a b then strip_prefix p' s' else None
  | String _ _, EmptyString => None
  end.

(** Modelled from the spec: [GitOperations::current_branch] is not in the
    sources; it reports the branch the repository is on, or the failure
    [git] reports instead ([head_failure]). *)
Definition current_branch (ops : GitOperations) (head_failure : option SahError)
    : string + SahError :=
  match head_failure with
  | Some e => inr e
  | None => inl (git_current_branch ops)
  end.

(** [ToolHandlers::handle_issue_current]: the git mutex guard lives for the
    whole call. *)
Definition handle_issue_current (git : option GitOperations)
    (head_failure : option SahError) : ToolOutcome * list Event * option GitOperations :=
  let tr := [EvAcquire GitOpsMutex; EvRelease GitOpsMutex] in
  match git with
  | Some ops =>
      match current_branch ops head_failure with
      | inl branch =>
          match strip_prefix ISSUE_BRANCH_PREFIX branch with
          | Some issue_name =>
              (ROk (SuccessResponse ("Currently working on issue: " ++ issue_name)), tr, git)
          | None =>
              (ROk (SuccessResponse ("Not on an issue branch. Current branch: " ++ branch)), tr, git)
          end
      | inr e =>
          (ROk (ErrorResponse ("Failed to get current branch: " ++ sah_error_text e)), tr, git)
      end
  | None => (ROk (ErrorResponse "Git operations not available"), tr, None)
  end.

(* ------------------------------------------------------------------ *)
(** ** Sample inputs *)

(** A concrete workflow and file system used by the examples. *)
Definition start_workflow : Workflow :=
  mkWorkflow "Test Workflow" "A test workflow" "start" ["start"; "processing"].

Definition no_abort_file : FileSystem := mkFileSystem false None.

(** Issue 7 ("fix") is completed, issue 8 ("wip") is not. *)
Definition sample_store : list Issue :=
  [mkIssue 7 "fix" "Fix the parser" true; mkIssue 8 "wip" "Work in progress" false].

(** A repository where the issue branches were created from the non-trunk
    branch [release/2]; [merge_failure] is what [git merge] reports and
    [last_commit] the output of [git log -1]. *)
Definition sample_git (merge_failure : option SahError) (last_commit : string)
    : GitOperations :=
  mkGitOperations "release/2"
    [("main", None); ("release/2", Some "main");
     ("issue/fix", Some "release/2"); ("issue/000007_fix", Some "release/2")]
    [] merge_failure (inl last_commit) None (inl "") None.

Definition sample_commit : string :=
  "0123456789abcdef|Merge issue/fix|Dev <dev@example.com>|2024-01-01".

Definition conflict_text : string :=
  "CONFLICT (content): Merge conflict in src/lib.rs".

Definition transient_text : string := "connection timed out".

(** A last-commit line whose hash field is a 7-character short hash. *)
Definition short_commit : string := "abc1234|Merge issue/fix|Dev|2024-01-01".

Definition sample_run_ops : list RunOp :=
  [OpTransitionTo "processing" 20; OpComplete 30; OpFail 40].

(* ------------------------------------------------------------------ *)
(** ** Invariants and auxiliary predicates *)

(** The invariant of the history against a workflow. *)
Definition history_ok (w : Workflow) (r : WorkflowRun) : Prop :=
  workflow r = w
  /\ (exists t0 rest, history r = (wf_initial_state w, t0) :: rest)
  /\ (exists pre t, history r = (pre ++ [(current_state r, t)])%list).

(** The invariant of [completed_at] against [status]. *)
Definition completion_ok (r : WorkflowRun) : Prop :=
  completed_at r = None <-> status r = Running.

(** The alphabet is in increasing ASCII order. *)
Definition alphabet_increasing : bool :=
  let idx := map Z.of_nat (seq 0 32) in
  forallb (fun i => forallb (fun j =>
             implb (i <? j)%Z
               (match Ascii.compare (alphabet_char i) (alphabet_char j) with
                | Lt => true
                | _ => false
                end)) idx) idx.

(** How far a run of identifier requests can still go: [previous] plus the
    number of requests left stays below [U128_MAX], and fewer than [2^80]
    requests remain. *)
Definition room (previous : Z) (n : nat) : Prop :=
  0 <= previous
  /\ previous + Z.of_nat n < U128_MAX
  /\ Z.of_nat n < 2 ^ RAND_BITS.

(** Whether the trace carries an info-level log line. *)
Definition has_info_log (tr : list Event) : bool :=
  existsb (fun ev => match ev with EvLog (LInfo, _) => true | _ => false end) tr.

(** The guards still held at the end of a trace. *)
Definition locks_after (tr : list Event) : bool * bool :=
  fold_left lock_step tr (false, false).

(** The history entries that a sequence of operations appends, in order. *)
Fixpoint transitions_of (ops : list RunOp) : list (StateId * Timestamp) :=
  match ops with
  | [] => []
  | OpTransitionTo s now :: rest => (s, now) :: transitions_of rest
  | _ :: rest => transitions_of rest
  end.

(** The last [complete] or [fail] of a sequence of operations, with the
    status it sets and its clock reading. *)
Fixpoint last_terminal (ops : list RunOp) : option (WorkflowRunStatus * Timestamp) :=
  match ops with
  | [] => None
  | op :: rest =>
      match last_terminal rest with
      | Some t => Some t
      | None =>
          match op with
          | OpComplete now => Some (Completed, now)
          | OpFail now => Some (Failed, now)
          | OpTransitionTo _ _ => None
          end
      end
  end.

(** Every character has a value in the Crockford table. *)
Definition ulid_chars_valid (s : string) : bool :=
  forallb (fun c => match lookup_value c with Some _ => true | None => false end)
          (list_ascii_of_string s).

(** Every byte is ASCII. *)
Definition ascii_only (s : string) : bool :=
  forallb (fun c => (nat_of_ascii c <? 128)%nat) (list_ascii_of_string s).

(** Decimal digits only, and their value. *)
Definition all_digits (s : string) : bool :=
  forallb (fun c => (48 <=? nat_of_ascii c)%nat && (nat_of_ascii c <=? 57)%nat)
          (list_ascii_of_string s).

Fixpoint digits_value (s : string) : nat :=
  match s with
  | EmptyString => 0
  | String c s' => (nat_of_ascii c - 48) * 10 ^ String.length s' + digits_value s'
  end.

(** The lookup table inverts the alphabet. *)
Definition lookup_inverts_alphabet : bool :=
  forallb (fun i => match lookup_value (alphabet_char i) with
                    | Some v => (v =? i)%Z
                    | None => false
                    end) (map Z.of_nat (seq 0 32)).

(* ================================================================== *)
(** * Properties of the run record *)

Example WorkflowRun_new_start :
  history (new_run no_abort_file 1 10 start_workflow) = [("start", 10)].
Proof. reflexivity. Qed.



Lemma history_ok_new fs fresh_id now w :
  history_ok w (new_run fs fresh_id now w).
Proof.
  unfold new_run, WorkflowRun_new.
  destruct (remove_abort_file fs) as [r fs']; simpl.
  split; [reflexivity | split].
  - exists now, []. reflexivity.
  - exists [], now. reflexivity.
Qed.

Lemma history_ok_apply_op w r op :
  history_ok w r -> history_ok w (apply_op r op).
Proof.
  intros (Hw & (t0 & rest & Hhd) & (pre & t & Htl)).
  destruct op as [s now | now | now]; simpl;
    (split; [assumption | split]); simpl.
  - rewrite Hhd. exists t0, (rest ++ [(s, now)])%list. reflexivity.
  - exists (history r), now. reflexivity.
  - exists t0, rest. assumption.
  - exists pre, t. assumption.
  - exists t0, rest. assumption.
  - exists pre, t. assumption.
Qed.

Lemma history_ok_run_ops w ops : forall r,
  history_ok w r -> history_ok w (run_ops r ops).
Proof.
  unfold run_ops.
  induction ops as [| op ops IH]; intros r H; simpl.
  - exact H.
  - apply IH, history_ok_apply_op, H.
Qed.

(** C1: for every run built by [WorkflowRun::new] and then changed by any
    sequence of [transition_to], [complete] and [fail] calls, [history] is
    not empty, its first entry's state is the workflow's initial state, and
    its last entry's state is [current_state]. *)
Theorem WorkflowRun_history_invariant :
  forall (fs : FileSystem) (fresh_id : WorkflowRunId) (now : Timestamp)
         (w : Workflow) (ops : list RunOp),
    let r := run_ops (new_run fs fresh_id now w) ops in
    history r <> []
    /\ (exists t0 rest,
          history r = (wf_initial_state (workflow r), t0) :: rest)
    /\ (exists pre t, history r = (pre ++ [(current_state r, t)])%list).
Proof.
  intros fs fresh_id now w ops r.
  destruct (history_ok_run_ops w ops _ (history_ok_new fs fresh_id now w))
    as (Hw & (t0 & rest & Hhd) & Htl).
  fold r in Hw, Hhd, Htl.
  split; [| split].
  - rewrite Hhd. discriminate.
  - exists t0, rest. rewrite Hw. exact Hhd.
  - exact Htl.
Qed.

Lemma completion_ok_apply_op r op :
  completion_ok r -> completion_ok (apply_op r op).
Proof.
  unfold completion_ok.
  destruct op as [s now | now | now]; simpl; intros H.
  - exact H.
  - split; discriminate.
  - split; discriminate.
Qed.

Lemma completion_ok_run_ops ops : forall r,
  completion_ok r -> completion_ok (run_ops r ops).
Proof.
  unfold run_ops.
  induction ops as [| op ops IH]; intros r H; simpl.
  - exact H.
  - apply IH, completion_ok_apply_op, H.
Qed.

Lemma completion_ok_new fs fresh_id now w :
  completion_ok (new_run fs fresh_id now w).
Proof.
  unfold completion_ok, new_run, WorkflowRun_new.
  destruct (remove_abort_file fs) as [r fs']; simpl.
  split; reflexivity.
Qed.

(** C3 (counterexample): [completed_at] is overwritten by a later terminal
    call: after [complete()] at time 1 it is [Some 1], and a following
    [fail()] at time 2 replaces it by [Some 2]. *)
Lemma completed_at_overwritten_by_fail :
  let r1 := run_ops (new_run no_abort_file 1 0 start_workflow) [OpComplete 1] in
  let r2 := run_ops (new_run no_abort_file 1 0 start_workflow) [OpComplete 1; OpFail 2] in
  completed_at r1 = Some 1 /\ completed_at r2 = Some 2 /\ Some 1 <> Some 2.
Proof.
  simpl. split; [reflexivity | split; [reflexivity | discriminate]].
Qed.

(** C3 (amended): for every run reachable from [WorkflowRun::new] by
    [transition_to], [complete] and [fail] calls, [completed_at] is [None]
    exactly when the status is [Running]; a further [transition_to] leaves
    [completed_at] as it is, and a further [complete] or [fail] sets it to
    that call's own timestamp, so once set it is never cleared, but a
    second terminal call overwrites it. *)
Theorem WorkflowRun_completed_at_status :
  forall (fs : FileSystem) (fresh_id : WorkflowRunId) (now : Timestamp)
         (w : Workflow) (ops : list RunOp) (op : RunOp),
    let r := run_ops (new_run fs fresh_id now w) ops in
    (completed_at r = None <-> status r = Running)
    /\ completed_at (apply_op r op)
       = match op with
         | OpTransitionTo _ _ => completed_at r
         | OpComplete t | OpFail t => Some t
         end.
Proof.
  intros fs fresh_id now w ops op r.
  split.
  - apply completion_ok_run_ops, completion_ok_new.
  - destruct op; reflexivity.
Qed.

(** C4: [WorkflowRun::new] always returns a run (it has no error path):
    status [Running], history seeded with the initial state, empty
    context; an existing abort marker is removed when the removal
    succeeds (logged at debug level), a missing marker leaves the file
    system unchanged and logs nothing, and a removal failure other than
    not-found is only logged as a warning. *)
Theorem WorkflowRun_new_clears_abort_marker :
  forall (fs : FileSystem) (fresh_id : WorkflowRunId) (now : Timestamp)
         (w : Workflow),
    let '(r, fs', logs) := WorkflowRun_new fs fresh_id now w in
    status r = Running
    /\ current_state r = wf_initial_state w
    /\ history r = [(wf_initial_state w, now)]
    /\ context r = []
    /\ completed_at r = None
    /\ (abort_file_exists fs = true -> abort_remove_error fs = None ->
        abort_file_exists fs' = false
        /\ logs = [(LDebug, "Cleaned up existing abort file")])
    /\ (abort_file_exists fs = false -> fs' = fs /\ logs = [])
    /\ (forall k, abort_file_exists fs = true -> abort_remove_error fs = Some k ->
        k <> NotFound ->
        fs' = fs /\ logs = [(LWarn, "Failed to clean up abort file: " ++ io_error_text k)]).
Proof.
  intros fs fresh_id now w.
  destruct fs as [[|] [k0|]]; simpl;
    repeat split; intros; try discriminate; try reflexivity;
    match goal with
    | H : Some ?a = Some ?b |- _ => injection H as <-
    end;
    destruct k0; (reflexivity || contradiction).
Qed.

(** Witness of [WorkflowRun_new_clears_abort_marker]: with an existing,
    removable marker, the marker is gone and the run is [Running]. *)
Lemma WorkflowRun_new_clears_abort_marker_witness :
  let '(r, fs', logs) := WorkflowRun_new (mkFileSystem true None) 1 10 start_workflow in
  abort_file_exists fs' = false /\ status r = Running.
Proof.
  pose proof (WorkflowRun_new_clears_abort_marker (mkFileSystem true None) 1 10 start_workflow)
    as H.
  simpl in H |- *.
  destruct H as (Hs & _ & _ & _ & _ & Hrm & _).
  destruct (Hrm eq_refl eq_refl) as [Hx _].
  split; [exact Hx | exact Hs].
Defined.

(** C9 (counterexample): [transition_to] stamps the new entry with
    [chrono::Utc::now()] as it is; when the wall clock has been set back
    between two calls (reading 5 after 10), the appended timestamp is
    smaller than the previous last entry's. *)
Lemma transition_to_clock_set_back :
  history (transition_to (new_run no_abort_file 1 10 start_workflow) "processing" 5)
  = [("start", 10); ("processing", 5)]
  /\ 5 < 10.
Proof. split; [reflexivity | lia]. Qed.

(** C9 (amended): [transition_to(s)] at clock reading [now] appends exactly
    the entry [(s, now)] to [history], keeps every earlier entry in place,
    sets [current_state] to [s] and changes no other field; the appended
    timestamp is the clock reading of the call, which is not compared with
    the previous entry. *)
Theorem transition_to_appends :
  forall (r : WorkflowRun) (s : StateId) (now : Timestamp),
    let r' := transition_to r s now in
    history r' = (history r ++ [(s, now)])%list
    /\ List.length (history r') = S (List.length (history r))
    /\ (forall i, (i < List.length (history r))%nat ->
          nth_error (history r') i = nth_error (history r) i)
    /\ last (history r') (s, now) = (s, now)
    /\ current_state r' = s
    /\ id r' = id r /\ workflow r' = workflow r /\ context r' = context r
    /\ status r' = status r /\ started_at r' = started_at r
    /\ completed_at r' = completed_at r /\ metadata r' = metadata r.
Proof.
  intros r s now r'.
  repeat split.
  - simpl. rewrite length_app. simpl. lia.
  - intros i Hi. simpl. rewrite nth_error_app1 by exact Hi. reflexivity.
  - simpl. apply last_last.
Qed.

(* ================================================================== *)
(** * Order of run identifiers *)

Example WorkflowRunId_to_string_zero :
  WorkflowRunId_to_string 0 = "00000000000000000000000000".
Proof. reflexivity. Qed.

Example WorkflowRunId_to_string_max :
  WorkflowRunId_to_string U128_MAX = "7ZZZZZZZZZZZZZZZZZZZZZZZZZ".
Proof. vm_compute. reflexivity. Qed.

Example WorkflowRunId_new_seq_same_tick :
  WorkflowRunId_new_seq 0 [(5, 7); (5, 3); (6, 1)]
  = [ulid_from_parts 5 7; ulid_from_parts 5 7 + 1; ulid_from_parts 6 1].
Proof. vm_compute. reflexivity. Qed.

Lemma ascii_compare_refl (c : ascii) : Ascii.compare c c = Eq.
Proof. unfold Ascii.compare. apply N.compare_refl. Qed.

Lemma string_compare_refl (s : string) : String.compare s s = Eq.
Proof.
  induction s as [| c s IH]; simpl.
  - reflexivity.
  - rewrite ascii_compare_refl. exact IH.
Qed.

Lemma string_length_append (s1 s2 : string) :
  String.length (s1 ++ s2) = (String.length s1 + String.length s2)%nat.
Proof. induction s1 as [| c s1 IH]; simpl; [reflexivity | rewrite IH; reflexivity]. Qed.

(** Comparing two strings that start with prefixes of the same length
    compares the prefixes first. *)
Lemma string_compare_append (p1 p2 q1 q2 : string) :
  String.length p1 = String.length p2 ->
  String.compare (p1 ++ q1) (p2 ++ q2)
  = match String.compare p1 p2 with
    | Eq => String.compare q1 q2
    | c => c
    end.
Proof.
  revert p2.
  induction p1 as [| c1 p1 IH]; intros [| c2 p2] Hlen; simpl in *;
    try discriminate.
  - reflexivity.
  - destruct (Ascii.compare c1 c2); try reflexivity.
    apply IH. congruence.
Qed.

Lemma encode_digits_length (k : nat) : forall v,
  String.length (encode_digits k v) = k.
Proof.
  induction k as [| k IH]; intros v; simpl.
  - reflexivity.
  - rewrite string_length_append, IH. simpl. lia.
Qed.

Lemma alphabet_increasing_true : alphabet_increasing = true.
Proof. vm_compute. reflexivity. Qed.

Lemma alphabet_char_lt (i j : Z) :
  0 <= i -> i < j -> j < 32 ->
  Ascii.compare (alphabet_char i) (alphabet_char j) = Lt.
Proof.
  intros Hi Hij Hj.
  pose proof alphabet_increasing_true as H.
  unfold alphabet_increasing in H.
  rewrite forallb_forall in H.
  assert (Hin : forall x, 0 <= x < 32 -> In x (map Z.of_nat (seq 0 32))).
  { intros x Hx. apply in_map_iff. exists (Z.to_nat x).
    split; [lia | apply in_seq; lia]. }
  specialize (H i (Hin i ltac:(lia))).
  rewrite forallb_forall in H.
  specialize (H j (Hin j ltac:(lia))).
  apply Z.ltb_lt in Hij. rewrite Hij in H. simpl in H.
  destruct (Ascii.compare (alphabet_char i) (alphabet_char j)); congruence.
Qed.

(** The encoding of [k] base-32 digits preserves the order of the values
    below [32^k]. *)
Lemma encode_digits_lt (k : nat) : forall a b,
  0 <= a -> a < b -> b < 2 ^ (5 * Z.of_nat k) ->
  String.compare (encode_digits k a) (encode_digits k b) = Lt.
Proof.
  induction k as [| k IH]; intros a b Ha Hab Hb.
  - simpl in Hb. lia.
  - simpl.
    rewrite string_compare_append by (rewrite !encode_digits_length; reflexivity).
    rewrite !Z.shiftr_div_pow2 by lia.
    change 31 with (Z.ones 5).
    rewrite !Z.land_ones by lia.
    change (2 ^ 5) with 32.
    assert (Hpow : 2 ^ (5 * Z.of_nat (S k)) = 2 ^ (5 * Z.of_nat k) * 32).
    { rewrite Nat2Z.inj_succ, <- Z.add_1_r, Z.mul_add_distr_l, Z.pow_add_r by lia.
      reflexivity. }
    rewrite Hpow in Hb.
    pose proof (Z.div_le_mono a b 32 ltac:(lia) ltac:(lia)) as Hle.
    assert (Hbq : b / 32 < 2 ^ (5 * Z.of_nat k)).
    { apply Z.div_lt_upper_bound; lia. }
    destruct (Z.lt_ge_cases (a / 32) (b / 32)) as [Hlt | Hge].
    + rewrite IH; [reflexivity | apply Z.div_pos; lia | exact Hlt | exact Hbq].
    + assert (Heq : a / 32 = b / 32) by lia.
      rewrite Heq, string_compare_refl. simpl.
      rewrite alphabet_char_lt; [reflexivity | | | ].
      * apply Z.mod_pos_bound. lia.
      * pose proof (Z.div_mod a 32 ltac:(lia)).
        pose proof (Z.div_mod b 32 ltac:(lia)).
        lia.
      * apply Z.mod_pos_bound. lia.
Qed.

(** The [Display] of [WorkflowRunId] is strictly increasing on [u128]. *)
Lemma WorkflowRunId_to_string_lt (a b : Z) :
  0 <= a -> a < b -> b <= U128_MAX ->
  String.ltb (WorkflowRunId_to_string a) (WorkflowRunId_to_string b) = true.
Proof.
  intros Ha Hab Hb.
  unfold String.ltb, WorkflowRunId_to_string.
  rewrite encode_digits_lt; [reflexivity | exact Ha | exact Hab |].
  unfold U128_MAX in Hb. rewrite Z.ones_equiv in Hb.
  simpl. lia.
Qed.

Lemma ulid_from_parts_value (t r : Z) :
  0 <= t < 2 ^ TIME_BITS ->
  ulid_from_parts t r = t * 2 ^ RAND_BITS + r mod 2 ^ RAND_BITS.
Proof.
  intros Ht. unfold ulid_from_parts, TIME_BITS, RAND_BITS in *.
  rewrite (Z.land_ones t 48), Z.mod_small by lia.
  rewrite Z.land_ones, Z.shiftl_mul_pow2 by lia.
  rewrite <- Z.lxor_lor, <- Z.add_nocarry_lxor; [reflexivity | |];
    apply Z.bits_inj'; intros n Hn; rewrite Z.land_spec, Z.bits_0;
    (destruct (Z.lt_ge_cases n 80) as [Hlo | Hhi];
     [ rewrite <- Z.shiftl_mul_pow2, Z.shiftl_spec_low by lia; reflexivity
     | rewrite Z.mod_pow2_bits_high by lia; apply andb_false_r ]).
Qed.

Lemma generate_step (previous now_ms random : Z) (n : nat) :
  room previous (S n) -> now_ms <= 2 ^ TIME_BITS - 2 ->
  let u := generate_monotonic_ulid previous now_ms random in
  previous < u /\ room u n.
Proof.
  intros (H0 & Hmax & Hn) Ht u.
  unfold room, u, generate_monotonic_ulid, ulid_timestamp_ms, U128_MAX in *.
  unfold TIME_BITS, RAND_BITS in *.
  rewrite Nat2Z.inj_succ in Hmax, Hn.
  destruct (Z.leb_spec now_ms (Z.shiftr previous 80)) as [Hle | Hgt].
  - rewrite Z.land_ones by lia. rewrite Z.ones_equiv in *.
    rewrite Z.mod_small by lia. lia.
  - rewrite Z.ones_equiv in *.
    rewrite Z.shiftr_div_pow2 in Hgt by lia.
    assert (Hq : 0 <= previous / 2 ^ 80) by (apply Z.div_pos; lia).
    rewrite ulid_from_parts_value by (unfold TIME_BITS; lia).
    unfold RAND_BITS.
    pose proof (Z.mul_succ_div_gt previous (2 ^ 80) ltac:(lia)) as Hp.
    pose proof (Z.mod_pos_bound random (2 ^ 80) ltac:(lia)) as Hr.
    assert (Hts : (Z.succ (previous / 2 ^ 80)) * 2 ^ 80 <= now_ms * 2 ^ 80)
      by (apply Z.mul_le_mono_nonneg_r; lia).
    assert (Htop : now_ms * 2 ^ 80 <= (2 ^ 48 - 2) * 2 ^ 80)
      by (apply Z.mul_le_mono_nonneg_r; lia).
    lia.
Qed.

Lemma WorkflowRunId_new_seq_sorted (readings : list (Z * Z)) : forall previous,
  room previous (List.length readings) ->
  Forall (fun p => fst p <= 2 ^ TIME_BITS - 2) readings ->
  Sorted Z.lt (previous :: WorkflowRunId_new_seq previous readings)
  /\ Forall (fun u => 0 <= u <= U128_MAX) (WorkflowRunId_new_seq previous readings).
Proof.
  induction readings as [| [now_ms random] rest IH]; intros previous Hroom Hts.
  - simpl. split; [repeat constructor | constructor].
  - inversion Hts as [| ? ? Ht Hrest]; subst. simpl in Ht.
    destruct (generate_step previous now_ms random (List.length rest) Hroom Ht)
      as [Hlt Hroom'].
    destruct (IH _ Hroom' Hrest) as [Hs Hf].
    simpl. split.
    + constructor; [exact Hs | constructor; exact Hlt].
    + constructor; [| exact Hf].
      destruct Hroom' as (H0 & Hm & _). lia.
Qed.

Lemma StronglySorted_nth_error {A} (R : A -> A -> Prop) (l : list A) :
  StronglySorted R l ->
  forall i j a b, (i < j)%nat -> nth_error l i = Some a -> nth_error l j = Some b ->
  R a b.
Proof.
  induction 1 as [| x l Hs IH Hall]; intros i j a b Hij Hi Hj.
  - destruct i; discriminate.
  - destruct j as [| j]; [lia |].
    destruct i as [| i]; simpl in Hi, Hj.
    + injection Hi as <-.
      rewrite Forall_forall in Hall. apply Hall.
      eapply nth_error_In. exact Hj.
    + eapply IH; [| exact Hi | exact Hj]. lia.
Qed.

(** C2: in one process, the identifiers of successive
    [WorkflowRunId::new()] calls are strictly increasing, as [u128]
    values (the derived [Ord]) and as their [Display] strings compared
    byte by byte, as long as the clock readings stay below the last
    millisecond of the 48-bit ULID time range and fewer than [2^80]
    identifiers are requested. *)
Theorem WorkflowRunId_new_increasing :
  forall (previous : Z) (readings : list (Z * Z)),
    0 <= previous ->
    previous + Z.of_nat (List.length readings) < U128_MAX ->
    Z.of_nat (List.length readings) < 2 ^ RAND_BITS ->
    Forall (fun p => fst p <= 2 ^ TIME_BITS - 2) readings ->
    forall i j a b, (i < j)%nat ->
      nth_error (WorkflowRunId_new_seq previous readings) i = Some a ->
      nth_error (WorkflowRunId_new_seq previous readings) j = Some b ->
      a < b
      /\ String.ltb (WorkflowRunId_to_string a) (WorkflowRunId_to_string b) = true.
Proof.
  intros previous readings H0 Hmax Hn Hts i j a b Hij Ha Hb.
  destruct (WorkflowRunId_new_seq_sorted readings previous
              (conj H0 (conj Hmax Hn)) Hts) as [Hs Hf].
  apply Sorted_StronglySorted in Hs; [| intros x y z; lia].
  inversion Hs as [| ? ? Hs' _]; subst.
  assert (Hlt : a < b) by (eapply StronglySorted_nth_error; eauto).
  split; [exact Hlt |].
  rewrite Forall_forall in Hf.
  apply WorkflowRunId_to_string_lt; [| exact Hlt |].
  - apply (proj1 (Hf a (nth_error_In _ _ Ha))).
  - apply (proj2 (Hf b (nth_error_In _ _ Hb))).
Qed.

(** Witness of [WorkflowRunId_new_increasing]: three calls, the first two
    in the same millisecond. *)
Lemma WorkflowRunId_new_increasing_witness :
  ulid_from_parts 5 7 < ulid_from_parts 5 7 + 1
  /\ String.ltb (WorkflowRunId_to_string (ulid_from_parts 5 7))
                (WorkflowRunId_to_string (ulid_from_parts 5 7 + 1)) = true.
Proof.
  refine (WorkflowRunId_new_increasing 0 [(5, 7); (5, 3); (6, 1)]
            _ _ _ _ 0 1 _ _ _ _ _).
  - lia.
  - vm_compute. reflexivity.
  - vm_compute. reflexivity.
  - repeat constructor; simpl; lia.
  - lia.
  - vm_compute. reflexivity.
  - vm_compute. reflexivity.
Defined.

(* ================================================================== *)
(** * Properties of the merge tools *)

Lemma delete_after_merge_merges (delete : bool) (ops : GitOperations) (b msg : string) :
  git_merges (snd (delete_after_merge delete ops b msg)) = git_merges ops.
Proof.
  unfold delete_after_merge, delete_branch.
  destruct delete; [destruct (git_delete_failure ops) |]; reflexivity.
Qed.

Lemma commit_info_section_short_hash (commit : string) :
  (4 <= List.length (split_on "|"%char commit))%nat ->
  (String.length (nth 0 (split_on "|"%char commit) "") < 8)%nat ->
  commit_info_section (inl commit) = None.
Proof.
  intros H4 H8. unfold commit_info_section.
  apply Nat.leb_le in H4. rewrite H4.
  unfold str_slice_to.
  apply Nat.leb_gt in H8. rewrite H8. reflexivity.
Qed.

(** C7: a merge request for an issue that is not completed gets an
    [Ok] error response with a message, from both merge tools; the git
    mutex is never taken and the repository is left as it was. *)
Theorem merge_incomplete_issue_recoverable :
  (forall (store : list Issue) (git : option GitOperations)
          (request : MergeIssueRequest) (info : IssueInfo),
     get_issue_info store (req_name request) = inl info ->
     info_completed info = false ->
     exists msg tr,
       MergeIssueTool_execute store git request = (ROk (ErrorResponse msg), tr, git)
       /\ acquires GitOpsMutex tr = false)
  /\ (forall (store : list Issue) (git : option GitOperations)
             (request : NumberedMergeRequest) (issue : Issue),
     get_issue store (merge_number request) = inl issue ->
     issue_completed issue = false ->
     exists msg tr,
       handle_issue_merge store git request = (ROk (ErrorResponse msg), tr, git)
       /\ acquires GitOpsMutex tr = false).
Proof.
  split.
  - intros store git request info Hget Hc.
    unfold MergeIssueTool_execute. rewrite Hget, Hc. simpl.
    eexists _, _. split; reflexivity.
  - intros store git request issue Hget Hc.
    unfold handle_issue_merge. rewrite Hget, Hc. simpl.
    eexists _, _. split; reflexivity.
Qed.

(** C10: after a successful merge, when the last-commit information has at
    least four ['|']-separated fields and the first is shorter than eight
    bytes, [&parts[0][..8]] panics: both merge tools end in a panic
    instead of a result. *)
Theorem merge_short_commit_hash_panics :
  (forall (store : list Issue) (ops ops1 : GitOperations)
          (request : MergeIssueRequest) (info : IssueInfo) (commit : string),
     get_issue_info store (req_name request) = inl info ->
     info_completed info = true ->
     merge_issue_branch_auto ops (issue_name (info_issue info)) = inl ops1 ->
     get_last_commit_info ops1 = inl commit ->
     (4 <= List.length (split_on "|"%char commit))%nat ->
     (String.length (nth 0 (split_on "|"%char commit) "") < 8)%nat ->
     exists tr git',
       MergeIssueTool_execute store (Some ops) request
       = (RPanic slice_panic_message, tr, git'))
  /\ (forall (store : list Issue) (ops ops1 : GitOperations)
             (request : NumberedMergeRequest) (issue : Issue) (commit : string),
     get_issue store (merge_number request) = inl issue ->
     issue_completed issue = true ->
     check_working_directory_clean ops = inl tt ->
     merge_issue_branch ops (format_issue_name (issue_number issue) (issue_name issue))
       = inl ops1 ->
     get_last_commit_info ops1 = inl commit ->
     (4 <= List.length (split_on "|"%char commit))%nat ->
     (String.length (nth 0 (split_on "|"%char commit) "") < 8)%nat ->
     exists tr git',
       handle_issue_merge store (Some ops) request
       = (RPanic slice_panic_message, tr, git')).
Proof.
  split.
  - intros store ops ops1 request info commit Hget Hc Hm Hl H4 H8.
    unfold MergeIssueTool_execute. rewrite Hget, Hc. simpl.
    rewrite Hm, Hl, (commit_info_section_short_hash commit H4 H8).
    eexists _, _. reflexivity.
  - intros store ops ops1 request issue commit Hget Hc Hclean Hm Hl H4 H8.
    unfold handle_issue_merge. rewrite Hget, Hc. simpl.
    rewrite Hclean, Hm, Hl, (commit_info_section_short_hash commit H4 H8).
    eexists _, _. reflexivity.
Qed.

(** C6 (code bug): the comment of the failure branch of
    [MergeIssueTool::execute] (merge/mod.rs, line 140) says that an error
    carrying a marker ("does not exist", "deleted", "CONFLICT", "Automatic
    merge failed") should trigger an abort, and the claim asks for such
    errors to be classified as irrecoverable.  The code returns every merge
    failure as the same protocol-level error
    [Err(handle_error(e, "merge issue branch"))], with the repository as it
    was; the markers only decide whether an info-level log line is
    written, so an irrecoverable failure reaches the caller exactly like a
    transient one. *)
Theorem merge_irrecoverable_error_not_escalated
    (store : list Issue) (ops : GitOperations) (request : MergeIssueRequest)
    (info : IssueInfo) (e : SahError) :
  get_issue_info store (req_name request) = inl info ->
  info_completed info = true ->
  merge_issue_branch_auto ops (issue_name (info_issue info)) = inr e ->
  exists tr,
    MergeIssueTool_execute store (Some ops) request
    = (RErr (McpHandled e "merge issue branch"), tr, Some ops)
    /\ has_info_log tr = is_irrecoverable_merge_error (sah_error_text e).
Proof.
  intros Hget Hc Hm.
  unfold MergeIssueTool_execute. rewrite Hget, Hc. simpl. rewrite Hm.
  eexists. split; [reflexivity |].
  unfold has_info_log. simpl.
  destruct (is_irrecoverable_merge_error (sah_error_text e)); reflexivity.
Qed.

Lemma merge_issue_branch_auto_merges (ops ops1 : GitOperations) (name : string) :
  merge_issue_branch_auto ops name = inl ops1 ->
  exists parent,
    branch_parent ops (ISSUE_BRANCH_PREFIX ++ name) = Some (Some parent)
    /\ git_merges ops1 = (ISSUE_BRANCH_PREFIX ++ name, parent) :: git_merges ops.
Proof.
  unfold merge_issue_branch_auto, find_merge_target_branch.
  destruct (branch_parent ops (ISSUE_BRANCH_PREFIX ++ name)) as [[parent|]|];
    try discriminate.
  destruct (git_merge_failure ops); [discriminate |].
  intros H. injection H as <-. exists parent. split; reflexivity.
Qed.

Lemma merge_issue_branch_merges (ops ops1 : GitOperations) (name : string) :
  merge_issue_branch ops name = inl ops1 ->
  git_merges ops1 = (ISSUE_BRANCH_PREFIX ++ name, "main") :: git_merges ops.
Proof.
  unfold merge_issue_branch.
  destruct (branch_parent ops (ISSUE_BRANCH_PREFIX ++ name)); [| discriminate].
  destruct (git_merge_failure ops); [discriminate |].
  intros H. injection H as <-. reflexivity.
Qed.

(** C5 (amended): [MergeIssueTool::execute] merges an issue branch only
    into the branch it was created from (the merge-base target), while
    [ToolHandlers::handle_issue_merge] merges it into the fixed trunk
    "main". *)
Theorem merge_target_per_tool :
  (forall (store : list Issue) (ops : GitOperations) (request : MergeIssueRequest),
     match MergeIssueTool_execute store (Some ops) request with
     | (_, _, Some ops') =>
         git_merges ops' = git_merges ops
         \/ exists name parent,
              branch_parent ops (ISSUE_BRANCH_PREFIX ++ name) = Some (Some parent)
              /\ git_merges ops' = (ISSUE_BRANCH_PREFIX ++ name, parent) :: git_merges ops
     | (_, _, None) => False
     end)
  /\ (forall (store : list Issue) (ops : GitOperations) (request : NumberedMergeRequest),
     match handle_issue_merge store (Some ops) request with
     | (_, _, Some ops') =>
         git_merges ops' = git_merges ops
         \/ exists name, git_merges ops' = (ISSUE_BRANCH_PREFIX ++ name, "main") :: git_merges ops
     | (_, _, None) => False
     end).
Proof.
  split.
  - intros store ops request. unfold MergeIssueTool_execute.
    destruct (get_issue_info store (req_name request)) as [info | e];
      [| left; reflexivity].
    destruct (info_completed info); simpl; [| left; reflexivity].
    destruct (merge_issue_branch_auto ops (issue_name (info_issue info))) as [ops1 | e]
      eqn:Hm; [| left; reflexivity].
    destruct (merge_issue_branch_auto_merges _ _ _ Hm) as (parent & Hp & Hms).
    destruct (commit_info_section (get_last_commit_info ops1)).
    + match goal with
      | |- context [delete_after_merge ?d ?o ?b ?m] =>
          pose proof (delete_after_merge_merges d o b m) as Hkeep;
          destruct (delete_after_merge d o b m) as [msg ops2]
      end.
      simpl in Hkeep.
      right. exists (issue_name (info_issue info)), parent. split; [exact Hp |].
      rewrite Hkeep. exact Hms.
    + right. exists (issue_name (info_issue info)), parent. split; [exact Hp | exact Hms].
  - intros store ops request. unfold handle_issue_merge.
    destruct (get_issue store (merge_number request)) as [issue | e];
      [| left; reflexivity].
    destruct (issue_completed issue); simpl; [| left; reflexivity].
    destruct (check_working_directory_clean ops); [| left; reflexivity].
    set (name := format_issue_name (issue_number issue) (issue_name issue)).
    destruct (merge_issue_branch ops name) as [ops1 | e] eqn:Hm; [| left; reflexivity].
    pose proof (merge_issue_branch_merges _ _ _ Hm) as Hms.
    destruct (commit_info_section (get_last_commit_info ops1)).
    + match goal with
      | |- context [delete_after_merge ?d ?o ?b ?m] =>
          pose proof (delete_after_merge_merges d o b m) as Hkeep;
          destruct (delete_after_merge d o b m) as [msg ops2]
      end.
      simpl in Hkeep.
      right. exists name. rewrite Hkeep. exact Hms.
    + right. exists name. exact Hms.
Qed.

(** C5 (counterexample): [ToolHandlers::handle_issue_merge] on issue 7,
    whose branch [issue/000007_fix] was created from [release/2], merges
    it into "main". *)
Lemma handle_issue_merge_ignores_parent :
  branch_parent (sample_git None sample_commit) "issue/000007_fix" = Some (Some "release/2")
  /\ match handle_issue_merge sample_store (Some (sample_git None sample_commit))
             (mkNumberedMergeRequest 7 false) with
     | (_, _, Some ops') => git_merges ops' = [("issue/000007_fix", "main")]
     | (_, _, None) => False
     end
  /\ "main" <> "release/2".
Proof.
  split; [vm_compute; reflexivity |].
  split; [vm_compute; reflexivity | discriminate].
Qed.

(** [ToolHandlers::handle_issue_work] drops the issue-storage guard before
    it locks the git mutex. *)
Lemma handle_issue_work_locks_apart (store : list Issue) (git : option GitOperations)
    (request : WorkIssueRequest) :
  both_locks_held (snd (fst (handle_issue_work store git request))) = false.
Proof.
  unfold handle_issue_work.
  destruct (get_issue store (work_number request)); [| reflexivity].
  destruct git as [ops |]; [| reflexivity].
  destruct (create_work_branch ops _) as [[b ops'] | e]; reflexivity.
Qed.

(** [ToolHandlers::handle_issue_merge] drops the issue-storage guard before
    it locks the git mutex. *)
Lemma handle_issue_merge_locks_apart (store : list Issue) (git : option GitOperations)
    (request : NumberedMergeRequest) :
  both_locks_held (snd (fst (handle_issue_merge store git request))) = false.
Proof.
  unfold handle_issue_merge.
  destruct (get_issue store (merge_number request)) as [issue |]; [| reflexivity].
  destruct (issue_completed issue); simpl; [| reflexivity].
  destruct git as [ops |]; simpl; [| reflexivity].
  destruct (check_working_directory_clean ops); [| reflexivity].
  destruct (merge_issue_branch ops _) as [ops1 |]; [| reflexivity].
  destruct (commit_info_section (get_last_commit_info ops1)); [| reflexivity].
  match goal with
  | |- context [delete_after_merge ?d ?o ?b ?m] => destruct (delete_after_merge d o b m)
  end.
  reflexivity.
Qed.

(** C8 (code bug): [MergeIssueTool::execute] keeps the issue-storage read
    guard of line 66 alive while it locks the git mutex at line 84: on a
    completed issue with git available, both locks are held at once,
    whereas [handle_issue_work] and [handle_issue_merge] drop the guard
    first ([handle_issue_work_locks_apart], [handle_issue_merge_locks_apart]). *)
Theorem merge_tool_holds_both_locks :
  snd (fst (MergeIssueTool_execute sample_store (Some (sample_git None sample_commit))
              (mkMergeIssueRequest "fix" false)))
  = [EvAcquire IssueStorageRead; EvAcquire GitOpsMutex;
     EvRelease GitOpsMutex; EvRelease IssueStorageRead]
  /\ both_locks_held
       (snd (fst (MergeIssueTool_execute sample_store (Some (sample_git None sample_commit))
                    (mkMergeIssueRequest "fix" false)))) = true.
Proof. split; vm_compute; reflexivity. Qed.

(* ================================================================== *)
(** * Parsing run identifiers *)

Lemma decode_bytes_app (s1 s2 : string) : forall v,
  decode_bytes v (s1 ++ s2) =
  match decode_bytes v s1 with
  | inl v' => decode_bytes v' s2
  | inr e => inr e
  end.
Proof.
  induction s1 as [| c s1 IH]; intros v; simpl; [reflexivity |].
  destruct (lookup_value c); [apply IH | reflexivity].
Qed.

Lemma decode_bytes_single (v : Z) (c : ascii) :
  decode_bytes v (String c "") =
  match lookup_value c with
  | Some val => inl (Z.land (Z.lor (Z.shiftl v 5) val) U128_MAX)
  | None => inr InvalidChar
  end.
Proof. simpl. destruct (lookup_value c); reflexivity. Qed.

Lemma lookup_alphabet_char (i : Z) :
  0 <= i < 32 -> lookup_value (alphabet_char i) = Some i.
Proof.
  intros Hi.
  assert (Hall : lookup_inverts_alphabet = true) by (vm_compute; reflexivity).
  unfold lookup_inverts_alphabet in Hall.
  rewrite forallb_forall in Hall.
  specialize (Hall i).
  destruct (lookup_value (alphabet_char i)) as [v |].
  - f_equal. apply Z.eqb_eq. apply Hall.
    apply in_map_iff. exists (Z.to_nat i). split; [lia |].
    apply in_seq. lia.
  - exfalso. assert (false = true) as Hf; [| discriminate].
    apply Hall. apply in_map_iff. exists (Z.to_nat i). split; [lia |].
    apply in_seq. lia.
Qed.

Lemma decode_encode_digits (k : nat) : forall v,
  decode_bytes 0 (encode_digits k v)
  = inl (Z.land (Z.land v (Z.ones (5 * Z.of_nat k))) U128_MAX).
Proof.
  induction k as [| k IH]; intros v.
  - simpl. rewrite Z.land_0_r. reflexivity.
  - simpl encode_digits. rewrite decode_bytes_app, IH, decode_bytes_single.
    assert (Hd : 0 <= Z.land v 31 < 32).
    { change 31 with (Z.ones 5). rewrite Z.land_ones by lia.
      apply Z.mod_pos_bound. lia. }
    rewrite (lookup_alphabet_char _ Hd). f_equal.
    unfold U128_MAX.
    apply Z.bits_inj'; intros i Hi.
    rewrite Z.land_spec, Z.lor_spec, Z.shiftl_spec by lia.
    rewrite !Z.land_spec.
    change 31 with (Z.ones 5).
    rewrite !Z.testbit_ones by lia.
    destruct (Z.ltb_spec i 5) as [Hlt | Hge].
    + rewrite (Z.testbit_neg_r (Z.shiftr v 5)) by lia.
      destruct (Z.leb_spec 0 i); [| lia].
      destruct (Z.ltb_spec i 128); [| lia].
      destruct (Z.ltb_spec i (5 * Z.of_nat (S k))); [| lia].
      simpl. rewrite !andb_true_r. reflexivity.
    + rewrite Z.shiftr_spec by lia.
      replace (i - 5 + 5) with i by lia.
      destruct (Z.leb_spec 0 i); [| lia].
      destruct (Z.leb_spec 0 (i - 5)); [| lia].
      destruct (Z.ltb_spec i 5); [lia |].
      destruct (Z.ltb_spec (i - 5) (5 * Z.of_nat k));
        destruct (Z.ltb_spec i (5 * Z.of_nat (S k))); try lia;
        destruct (Z.ltb_spec (i - 5) 128);
        destruct (Z.ltb_spec i 128); try lia;
        destruct (Z.testbit v i); reflexivity.
Qed.

(** [WorkflowRunId::parse] inverts [Display]: the string of any [u128]
    identifier parses back to the same identifier. *)
Theorem WorkflowRunId_parse_to_string (u : WorkflowRunId) :
  0 <= u <= U128_MAX ->
  WorkflowRunId_parse (WorkflowRunId_to_string u) = inl u.
Proof.
  intros Hu. unfold WorkflowRunId_parse, ulid_decode, WorkflowRunId_to_string.
  rewrite encode_digits_length. simpl negb. cbv iota.
  rewrite decode_encode_digits.
  assert (Hmax : U128_MAX = Z.ones 128) by reflexivity.
  rewrite Hmax in *. rewrite Z.ones_equiv in Hu.
  rewrite !Z.land_ones by lia.
  assert (H130 : 2 ^ 128 <= 2 ^ (5 * Z.of_nat ULID_LEN)).
  { apply Z.pow_le_mono_r; [lia | simpl; lia]. }
  rewrite (Z.mod_small u) by lia.
  rewrite Z.mod_small by lia. reflexivity.
Qed.

Lemma decode_bytes_ok (s : string) : forall v,
  (exists u, decode_bytes v s = inl u) <-> ulid_chars_valid s = true.
Proof.
  induction s as [| c s IH]; intros v; simpl.
  - split; [reflexivity | eauto].
  - unfold ulid_chars_valid in *. simpl.
    destruct (lookup_value c) as [val |]; simpl.
    + apply IH.
    + split; [intros [u Hu]; discriminate | discriminate].
Qed.

(** [WorkflowRunId::parse] succeeds exactly on the strings of 26 bytes
    whose every byte is a character of the Crockford alphabet (in either
    case); anything else is an error. *)
Theorem WorkflowRunId_parse_ok_iff (s : string) :
  (exists u, WorkflowRunId_parse s = inl u)
  <-> String.length s = ULID_LEN /\ ulid_chars_valid s = true.
Proof.
  unfold WorkflowRunId_parse, ulid_decode.
  destruct (Nat.eqb_spec (String.length s) ULID_LEN) as [Hl | Hl]; simpl.
  - rewrite <- (decode_bytes_ok s 0).
    destruct (decode_bytes 0 s) as [u | e].
    + split; [intros _; split; [exact Hl | eauto] | eauto].
    + split; [intros [u Hu]; discriminate | intros [_ [u Hu]]; discriminate].
  - split; [intros [u Hu]; discriminate | intros [H _]; contradiction].
Qed.

(* ================================================================== *)
(** * How the run operations compose *)

(** Whatever sequence of [transition_to], [complete] and [fail] calls a
    run goes through, its history is the old history followed by one entry
    per [transition_to] call, in call order: nothing is removed, reordered
    or added by [complete] or [fail]. *)
Theorem run_ops_history (ops : list RunOp) : forall r,
  history (run_ops r ops) = (history r ++ transitions_of ops)%list.
Proof.
  induction ops as [| op ops IH]; intros r; simpl.
  - rewrite app_nil_r. reflexivity.
  - unfold run_ops in *. simpl. rewrite IH.
    destruct op; simpl; [rewrite <- app_assoc | |]; reflexivity.
Qed.

(** No sequence of operations changes a run's identifier, workflow, start
    time, context or metadata. *)
Theorem run_ops_keeps_identity (ops : list RunOp) : forall r,
  id (run_ops r ops) = id r
  /\ workflow (run_ops r ops) = workflow r
  /\ started_at (run_ops r ops) = started_at r
  /\ context (run_ops r ops) = context r
  /\ metadata (run_ops r ops) = metadata r.
Proof.
  induction ops as [| op ops IH]; intros r; [repeat split |].
  unfold run_ops in *. simpl.
  destruct (IH (apply_op r op)) as (H1 & H2 & H3 & H4 & H5).
  rewrite H1, H2, H3, H4, H5.
  destruct op; repeat split.
Qed.

(** After a sequence of operations, the status and [completed_at] are those
    set by the last [complete] or [fail] call (a later [complete] overrides
    an earlier [fail] and the other way round); without such a call they
    are unchanged. *)
Theorem run_ops_last_terminal (ops : list RunOp) : forall r,
  match last_terminal ops with
  | None => status (run_ops r ops) = status r
            /\ completed_at (run_ops r ops) = completed_at r
  | Some (st, t) => status (run_ops r ops) = st
                    /\ completed_at (run_ops r ops) = Some t
  end.
Proof.
  induction ops as [| op ops IH]; intros r; simpl; [split; reflexivity |].
  unfold run_ops in *. simpl.
  specialize (IH (apply_op r op)).
  destruct (last_terminal ops) as [[st t] |]; [exact IH |].
  destruct IH as [Hs Hc]. rewrite Hs, Hc.
  destruct op; split; reflexivity.
Qed.

(* ================================================================== *)
(** * Issue names and the tool handlers *)

Lemma string_length_append_nat (s1 s2 : string) :
  String.length (s1 ++ s2) = (String.length s1 + String.length s2)%nat.
Proof. induction s1 as [| c s1 IH]; simpl; [reflexivity | rewrite IH; reflexivity]. Qed.

Lemma digit_char_value (n : nat) :
  nat_of_ascii (ascii_of_nat (48 + n mod 10)) = (48 + n mod 10)%nat.
Proof.
  apply Ascii.nat_ascii_embedding.
  pose proof (Nat.mod_upper_bound n 10). lia.
Qed.

Lemma decimal_aux_spec (f : nat) : forall n acc,
  (n < f)%nat -> all_digits acc = true ->
  all_digits (decimal_aux f n acc) = true
  /\ digits_value (decimal_aux f n acc)
     = (n * 10 ^ String.length acc + digits_value acc)%nat.
Proof.
  induction f as [| f IH]; intros n acc Hn Hacc; [lia |].
  cbn [decimal_aux].
  pose proof (Nat.mod_upper_bound n 10) as Hm.
  assert (Hd : all_digits (String (ascii_of_nat (48 + n mod 10)) acc) = true).
  { unfold all_digits in *. cbn [list_ascii_of_string forallb].
    rewrite digit_char_value, Hacc.
    destruct (Nat.leb_spec 48 (48 + n mod 10)); [| lia].
    destruct (Nat.leb_spec (48 + n mod 10) 57); [reflexivity | lia]. }
  destruct (Nat.ltb_spec n 10) as [Hlt | Hge].
  - split; [exact Hd |]. cbn [digits_value String.length].
    rewrite digit_char_value.
    rewrite Nat.mod_small by exact Hlt.
    replace (48 + n - 48)%nat with n by lia. reflexivity.
  - assert (Hf : (n / 10 < f)%nat).
    { assert (Hdiv : (n / 10 < n)%nat) by (apply Nat.div_lt; lia). lia. }
    destruct (IH (n / 10)%nat _ Hf Hd) as [Hall Hval].
    split; [exact Hall |]. rewrite Hval. cbn [digits_value String.length].
    rewrite digit_char_value.
    replace (48 + n mod 10 - 48)%nat with (n mod 10)%nat by lia.
    pose proof (Nat.div_mod n 10 ltac:(lia)) as Hdm.
    rewrite Nat.pow_succ_r'.
    set (p := (10 ^ String.length acc)%nat).
    set (q := (n / 10)%nat) in *. set (m := (n mod 10)%nat) in *.
    rewrite Hdm. nia.
Qed.

Lemma zeros_prefix_value (k : nat) (s : string) :
  all_digits (string_of_list_ascii (repeat "0"%char k) ++ s) = all_digits s
  /\ digits_value (string_of_list_ascii (repeat "0"%char k) ++ s) = digits_value s.
Proof.
  induction k as [| k [IH1 IH2]]; [split; reflexivity |].
  simpl. unfold all_digits in *. simpl. split; [exact IH1 |].
  rewrite IH2. reflexivity.
Qed.

Lemma issue_number_part (n : nat) :
  all_digits (zero_pad ISSUE_NUMBER_WIDTH (decimal n)) = true
  /\ digits_value (zero_pad ISSUE_NUMBER_WIDTH (decimal n)) = n.
Proof.
  unfold zero_pad, decimal.
  destruct (decimal_aux_spec (S n) n "" ltac:(lia) eq_refl) as [Hall Hval].
  destruct (zeros_prefix_value (ISSUE_NUMBER_WIDTH - String.length (decimal_aux (S n) n ""))
              (decimal_aux (S n) n "")) as [H1 H2].
  rewrite H1, H2, Hall, Hval. simpl. split; [reflexivity | lia].
Qed.

Lemma digits_underscore_split (p1 p2 a b : string) :
  all_digits p1 = true -> all_digits p2 = true ->
  p1 ++ String "_" a = p2 ++ String "_" b -> p1 = p2 /\ a = b.
Proof.
  revert p2. induction p1 as [| c p1 IH]; intros p2 H1 H2 Heq; destruct p2 as [| d p2].
  - simpl in Heq. injection Heq as <-. split; reflexivity.
  - simpl in Heq. injection Heq as <- _.
    unfold all_digits in H2. simpl in H2. discriminate.
  - simpl in Heq. injection Heq as -> _.
    unfold all_digits in H1. simpl in H1. discriminate.
  - simpl in Heq. injection Heq as <- Heq.
    unfold all_digits in H1, H2. simpl in H1, H2.
    apply andb_prop in H1 as [_ H1]. apply andb_prop in H2 as [_ H2].
    destruct (IH p2 H1 H2 Heq) as [-> ->]. split; reflexivity.
Qed.

(** The issue name [{:06}_{name}] that [handle_issue_work] and
    [handle_issue_merge] build (and so the branch [issue/{:06}_{name}])
    determines the issue number and name: two issues with a different
    number or a different name never share a work branch. *)
Theorem format_issue_name_injective (n1 n2 : nat) (a b : string) :
  format_issue_name n1 a = format_issue_name n2 b -> n1 = n2 /\ a = b.
Proof.
  unfold format_issue_name. intros Heq.
  destruct (issue_number_part n1) as [A1 V1].
  destruct (issue_number_part n2) as [A2 V2].
  destruct (digits_underscore_split _ _ a b A1 A2 Heq) as [Hp Hab].
  split; [| exact Hab].
  rewrite <- V1, <- V2, Hp. reflexivity.
Qed.

(** [handle_issue_merge] records a merge only for an issue that exists and
    is completed, and only when [git status --porcelain] reports a clean
    working directory. *)
Theorem handle_issue_merge_guard (store : list Issue) (ops ops' : GitOperations)
    (request : NumberedMergeRequest) (out : ToolOutcome) (tr : list Event) :
  handle_issue_merge store (Some ops) request = (out, tr, Some ops') ->
  git_merges ops' <> git_merges ops ->
  (exists issue, get_issue store (merge_number request) = inl issue
                 /\ issue_completed issue = true)
  /\ check_working_directory_clean ops = inl tt.
Proof.
  unfold handle_issue_merge. intros Hrun Hchanged.
  destruct (get_issue store (merge_number request)) as [issue | e];
    [| injection Hrun as _ _ <-; contradiction].
  destruct (issue_completed issue) eqn:Hc; simpl in Hrun;
    [| injection Hrun as _ _ <-; contradiction].
  destruct (check_working_directory_clean ops) as [[] | e] eqn:Hclean;
    [| injection Hrun as _ _ <-; contradiction].
  split; [exists issue; split; [reflexivity | exact Hc] |]. reflexivity.
Qed.

Lemma strip_prefix_app (p s : string) : strip_prefix p (p ++ s) = Some s.
Proof.
  induction p as [| c p IH]; simpl; [destruct s; reflexivity |].
  rewrite Ascii.eqb_refl. exact IH.
Qed.

(** [handle_issue_work] followed by [handle_issue_current]: when the work
    branch of an existing issue has been switched to (a success response),
    the current-issue tool then reports that issue, by its [{:06}_{name}]
    name. *)
Theorem issue_current_after_work (store : list Issue) (ops ops' : GitOperations)
    (n : nat) (issue : Issue) (msg : string) (tr : list Event) :
  get_issue store n = inl issue ->
  handle_issue_work store (Some ops) (mkWorkIssueRequest n)
    = (ROk (SuccessResponse msg), tr, Some ops') ->
  msg = "Switched to work branch: " ++ ISSUE_BRANCH_PREFIX
        ++ format_issue_name (issue_number issue) (issue_name issue)
  /\ fst (fst (handle_issue_current (Some ops') None))
     = ROk (SuccessResponse ("Currently working on issue: "
                             ++ format_issue_name (issue_number issue) (issue_name issue))).
Proof.
  intros Hget Hwork. unfold handle_issue_work in Hwork. simpl work_number in Hwork.
  rewrite Hget in Hwork. unfold create_work_branch in Hwork.
  set (b := ISSUE_BRANCH_PREFIX ++ format_issue_name (issue_number issue) (issue_name issue))
    in *.
  destruct (git_switch_failure ops) as [e |]; [discriminate Hwork |].
  destruct (branch_parent ops b);
    injection Hwork as <- _ <-;
    (split; [reflexivity |]);
    unfold handle_issue_current, current_branch; simpl git_current_branch;
    unfold b; rewrite strip_prefix_app; reflexivity.
Qed.


(** Every guard a handler takes is released by the time it returns (or
    unwinds from a panic): after [MergeIssueTool::execute],
    [handle_issue_work], [handle_issue_merge] or [handle_issue_current],
    neither the issue-storage lock nor the git mutex is held. *)
Theorem handlers_release_locks :
  (forall store git request,
     locks_after (snd (fst (MergeIssueTool_execute store git request))) = (false, false))
  /\ (forall store git request,
     locks_after (snd (fst (handle_issue_work store git request))) = (false, false))
  /\ (forall store git request,
     locks_after (snd (fst (handle_issue_merge store git request))) = (false, false))
  /\ (forall git head_failure,
     locks_after (snd (fst (handle_issue_current git head_failure))) = (false, false)).
Proof.
  unfold locks_after. repeat split; intros.
  - unfold MergeIssueTool_execute.
    destruct (get_issue_info store (req_name request)) as [info |]; [| reflexivity].
    destruct (negb (info_completed info)); [reflexivity |].
    destruct git as [ops |]; [| reflexivity].
    destruct (merge_issue_branch_auto ops _) as [ops1 | e].
    + destruct (commit_info_section _); [| reflexivity].
      match goal with
      | |- context [delete_after_merge ?d ?o ?b ?m] => destruct (delete_after_merge d o b m)
      end. reflexivity.
    + destruct (is_irrecoverable_merge_error _); reflexivity.
  - unfold handle_issue_work.
    destruct (get_issue store (work_number request)); [| reflexivity].
    destruct git as [ops |]; [| reflexivity].
    destruct (create_work_branch ops _) as [[b ops'] | e]; reflexivity.
  - unfold handle_issue_merge.
    destruct (get_issue store (merge_number request)) as [issue |]; [| reflexivity].
    destruct (issue_completed issue); simpl; [| reflexivity].
    destruct git as [ops |]; simpl; [| reflexivity].
    destruct (check_working_directory_clean ops); [| reflexivity].
    destruct (merge_issue_branch ops _) as [ops1 |]; [| reflexivity].
    destruct (commit_info_section (get_last_commit_info ops1)); [| reflexivity].
    match goal with
    | |- context [delete_after_merge ?d ?o ?b ?m] => destruct (delete_after_merge d o b m)
    end. reflexivity.
  - unfold handle_issue_current.
    destruct git as [ops |]; [| reflexivity].
    destruct (current_branch ops head_failure); [| reflexivity].
    destruct (strip_prefix _ _); reflexivity.
Qed.

(** None of the [ToolHandlers] methods that use the git mutex
    ([handle_issue_work], [handle_issue_merge], [handle_issue_current])
    holds it together with the issue-storage guard. *)
Theorem tool_handlers_locks_apart :
  (forall store git request,
     both_locks_held (snd (fst (handle_issue_work store git request))) = false)
  /\ (forall store git request,
     both_locks_held (snd (fst (handle_issue_merge store git request))) = false)
  /\ (forall git head_failure,
     both_locks_held (snd (fst (handle_issue_current git head_failure))) = false).
Proof.
  split; [exact handle_issue_work_locks_apart |].
  split; [exact handle_issue_merge_locks_apart |].
  intros git head_failure. unfold handle_issue_current.
  destruct git as [ops |]; [| reflexivity].
  destruct (current_branch ops head_failure); [| reflexivity].
  destruct (strip_prefix _ _); reflexivity.
Qed.

Lemma ascii_only_append (s1 s2 : string) :
  ascii_only (s1 ++ s2) = ascii_only s1 && ascii_only s2.
Proof.
  induction s1 as [| c s1 IH]; [reflexivity |].
  unfold ascii_only in *. simpl. rewrite IH. apply andb_assoc.
Qed.

Lemma split_aux_ascii (sep : ascii) (s : string) : forall cur,
  ascii_only s = true -> ascii_only cur = true ->
  Forall (fun x => ascii_only x = true) (split_aux sep s cur).
Proof.
  induction s as [| c s IH]; intros cur Hs Hcur; simpl.
  - constructor; [exact Hcur | constructor].
  - unfold ascii_only in Hs. simpl in Hs. apply andb_prop in Hs as [Hc Hs].
    destruct (Ascii.eqb c sep).
    + constructor; [exact Hcur |]. apply IH; [exact Hs | reflexivity].
    + apply IH; [exact Hs |].
      rewrite ascii_only_append, Hcur. unfold ascii_only. simpl. rewrite Hc. reflexivity.
Qed.

Lemma get_ascii (s : string) : forall n c,
  ascii_only s = true -> get n s = Some c -> (nat_of_ascii c < 128)%nat.
Proof.
  induction s as [| c0 s IH]; intros n c Hs Hg; [destruct n; discriminate |].
  unfold ascii_only in Hs. simpl in Hs. apply andb_prop in Hs as [Hc0 Hs].
  destruct n as [| n]; simpl in Hg.
  - injection Hg as <-. apply Nat.ltb_lt. exact Hc0.
  - apply (IH n); [exact Hs | exact Hg].
Qed.

Lemma get_none (s : string) : forall n,
  get n s = None -> (String.length s <= n)%nat.
Proof.
  induction s as [| c s IH]; intros n Hg; simpl; [lia |].
  destruct n as [| n]; simpl in Hg; [discriminate |].
  apply IH in Hg. lia.
Qed.

Lemma str_slice_to_ascii (s : string) (n : nat) :
  ascii_only s = true -> (str_slice_to s n = None <-> (String.length s < n)%nat).
Proof.
  intros Hs. unfold str_slice_to.
  destruct (Nat.leb_spec n (String.length s)) as [Hle | Hgt]; simpl.
  - assert (Hb : is_char_boundary s n = true).
    { unfold is_char_boundary.
      destruct (get n s) as [c |] eqn:Hg.
      - apply get_ascii in Hg; [| exact Hs].
        apply orb_true_intro. right. apply orb_true_intro. left.
        apply Nat.ltb_lt. exact Hg.
      - apply get_none in Hg.
        apply orb_true_intro. right. apply Nat.eqb_eq. lia. }
    rewrite Hb. split; [discriminate | lia].
  - split; [intros _; exact Hgt | reflexivity].
Qed.

(** The commit-information step of both merge tools, on an all-ASCII
    [git log] line: it panics exactly when the line has at least four
    ['|']-separated fields and the first (the hash) is shorter than eight
    characters; otherwise it yields the commit section. *)
Theorem commit_info_panics_iff (info : string) :
  ascii_only info = true ->
  commit_info_section (inl info) = None
  <-> (4 <= List.length (split_on "|"%char info))%nat
      /\ (String.length (nth 0 (split_on "|"%char info) "") < 8)%nat.
Proof.
  intros Hs. unfold commit_info_section.
  assert (Hfield : ascii_only (nth 0 (split_on "|"%char info) "") = true).
  { pose proof (split_aux_ascii "|"%char info "" Hs eq_refl) as Hall.
    unfold split_on. destruct (split_aux "|"%char info "") as [| x rest];
      [reflexivity |].
    inversion Hall; assumption. }
  destruct (Nat.leb_spec 4 (List.length (split_on "|"%char info))) as [H4 | H4].
  - rewrite <- (str_slice_to_ascii _ 8 Hfield).
    destruct (str_slice_to (nth 0 (split_on "|"%char info) "") 8);
      split; try discriminate; try tauto; intros [_ H]; discriminate.
  - split; [discriminate | lia].
Qed.

(** When the issue cannot be found, no tool touches the repository or the
    git mutex: [handle_issue_work] and [handle_issue_merge] answer with an
    [Ok] error response ["Failed to get issue <n>: <error>"], while
    [MergeIssueTool::execute] fails with a protocol error for the
    operation "get issue for merge". *)
Theorem issue_lookup_failure (store : list Issue) (git : option GitOperations)
    (n : nat) (name : string) (delete : bool) (e1 e2 : SahError) :
  get_issue store n = inr e1 ->
  get_issue_info store name = inr e2 ->
  handle_issue_work store git (mkWorkIssueRequest n)
    = (ROk (ErrorResponse ("Failed to get issue " ++ decimal n ++ ": " ++ sah_error_text e1)),
       [EvAcquire IssueStorageRead; EvRelease IssueStorageRead], git)
  /\ handle_issue_merge store git (mkNumberedMergeRequest n delete)
    = (ROk (ErrorResponse ("Failed to get issue " ++ decimal n ++ ": " ++ sah_error_text e1)),
       [EvAcquire IssueStorageRead; EvRelease IssueStorageRead], git)
  /\ MergeIssueTool_execute store git (mkMergeIssueRequest name delete)
    = (RErr (McpHandled e2 "get issue for merge"),
       [EvAcquire IssueStorageRead; EvRelease IssueStorageRead], git).
Proof.
  intros H1 H2.
  unfold handle_issue_work, handle_issue_merge, MergeIssueTool_execute.
  simpl work_number. simpl merge_number. simpl req_name.
  rewrite H1, H2. repeat split.
Qed.

(* ================================================================== *)
(** * Witnesses *)

(** Witness of [WorkflowRun_history_invariant] on a run that moves to
    "processing", completes and fails. *)
Lemma WorkflowRun_history_invariant_witness :
  history (run_ops (new_run no_abort_file 1 10 start_workflow) sample_run_ops)
    = [("start", 10); ("processing", 20)]
  /\ history (run_ops (new_run no_abort_file 1 10 start_workflow) sample_run_ops) <> [].
Proof.
  split; [reflexivity |].
  apply (WorkflowRun_history_invariant no_abort_file 1 10 start_workflow sample_run_ops).
Defined.

(** Witness of [WorkflowRun_completed_at_status]. *)
Lemma WorkflowRun_completed_at_status_witness :
  completed_at (run_ops (new_run no_abort_file 1 10 start_workflow) [OpTransitionTo "processing" 20])
    = None
  /\ completed_at (apply_op (run_ops (new_run no_abort_file 1 10 start_workflow)
                               [OpTransitionTo "processing" 20]) (OpComplete 30)) = Some 30.
Proof.
  destruct (WorkflowRun_completed_at_status no_abort_file 1 10 start_workflow
              [OpTransitionTo "processing" 20] (OpComplete 30)) as [Hiff Hop].
  split; [apply Hiff; reflexivity | exact Hop].
Defined.

(** Witness of [transition_to_appends]: the entry before the new one is
    kept at index 0. *)
Lemma transition_to_appends_witness :
  nth_error (history (transition_to (new_run no_abort_file 1 10 start_workflow) "processing" 20)) 0
  = Some ("start", 10).
Proof.
  destruct (transition_to_appends (new_run no_abort_file 1 10 start_workflow) "processing" 20)
    as (_ & _ & Hkeep & _).
  apply (Hkeep 0%nat). simpl. lia.
Defined.

(** Witness of [merge_incomplete_issue_recoverable] on issue 8 ("wip"). *)
Lemma merge_incomplete_issue_recoverable_witness :
  (exists msg tr,
     MergeIssueTool_execute sample_store (Some (sample_git None sample_commit))
       (mkMergeIssueRequest "wip" false)
     = (ROk (ErrorResponse msg), tr, Some (sample_git None sample_commit))
     /\ acquires GitOpsMutex tr = false)
  /\ (exists msg tr,
     handle_issue_merge sample_store (Some (sample_git None sample_commit))
       (mkNumberedMergeRequest 8 false)
     = (ROk (ErrorResponse msg), tr, Some (sample_git None sample_commit))
     /\ acquires GitOpsMutex tr = false).
Proof.
  destruct merge_incomplete_issue_recoverable as [H1 H2].
  split.
  - apply (H1 sample_store _ _ (mkIssueInfo (mkIssue 8 "wip" "Work in progress" false) false));
      vm_compute; reflexivity.
  - apply (H2 sample_store _ _ (mkIssue 8 "wip" "Work in progress" false));
      vm_compute; reflexivity.
Defined.

(** Witness of [merge_short_commit_hash_panics] with the short hash
    "abc1234". *)
Lemma merge_short_commit_hash_panics_witness :
  (exists tr git',
     MergeIssueTool_execute sample_store (Some (sample_git None short_commit))
       (mkMergeIssueRequest "fix" false)
     = (RPanic slice_panic_message, tr, git'))
  /\ (exists tr git',
     handle_issue_merge sample_store (Some (sample_git None short_commit))
       (mkNumberedMergeRequest 7 false)
     = (RPanic slice_panic_message, tr, git')).
Proof.
  destruct merge_short_commit_hash_panics as [H1 H2].
  split.
  - apply (H1 sample_store (sample_git None short_commit)
             (record_merge (sample_git None short_commit) "issue/fix" "release/2")
             (mkMergeIssueRequest "fix" false)
             (mkIssueInfo (mkIssue 7 "fix" "Fix the parser" true) true) short_commit);
      vm_compute; reflexivity.
  - apply (H2 sample_store (sample_git None short_commit)
             (record_merge (sample_git None short_commit) "issue/000007_fix" "main")
             (mkNumberedMergeRequest 7 false)
             (mkIssue 7 "fix" "Fix the parser" true) short_commit);
      vm_compute; reflexivity.
Defined.

(** Witness of [merge_irrecoverable_error_not_escalated]: a conflict, whose
    text carries the "CONFLICT" marker, and a transient failure, which
    carries none, both end in the same protocol-level error. *)
Lemma merge_irrecoverable_error_not_escalated_witness :
  is_irrecoverable_merge_error conflict_text = true
  /\ is_irrecoverable_merge_error transient_text = false
  /\ (exists tr,
       MergeIssueTool_execute sample_store
         (Some (sample_git (Some (mkSahError conflict_text)) sample_commit))
         (mkMergeIssueRequest "fix" false)
       = (RErr (McpHandled (mkSahError conflict_text) "merge issue branch"), tr,
          Some (sample_git (Some (mkSahError conflict_text)) sample_commit))
       /\ has_info_log tr = true)
  /\ (exists tr,
       MergeIssueTool_execute sample_store
         (Some (sample_git (Some (mkSahError transient_text)) sample_commit))
         (mkMergeIssueRequest "fix" false)
       = (RErr (McpHandled (mkSahError transient_text) "merge issue branch"), tr,
          Some (sample_git (Some (mkSahError transient_text)) sample_commit))
       /\ has_info_log tr = false).
Proof.
  assert (Hi : get_issue_info sample_store (req_name (mkMergeIssueRequest "fix" false))
               = inl (mkIssueInfo (mkIssue 7 "fix" "Fix the parser" true) true))
    by reflexivity.
  assert (Hc1 : is_irrecoverable_merge_error conflict_text = true)
    by (vm_compute; reflexivity).
  assert (Hc2 : is_irrecoverable_merge_error transient_text = false)
    by (vm_compute; reflexivity).
  split; [exact Hc1 |]. split; [exact Hc2 |]. split.
  - rewrite <- Hc1.
    exact (merge_irrecoverable_error_not_escalated sample_store
             (sample_git (Some (mkSahError conflict_text)) sample_commit)
             (mkMergeIssueRequest "fix" false) _
             (mkSahError conflict_text) Hi eq_refl eq_refl).
  - rewrite <- Hc2.
    exact (merge_irrecoverable_error_not_escalated sample_store
             (sample_git (Some (mkSahError transient_text)) sample_commit)
             (mkMergeIssueRequest "fix" false) _
             (mkSahError transient_text) Hi eq_refl eq_refl).
Defined.

(** Witness of [WorkflowRunId_parse_to_string] on the identifier written
    ["01ARZ3NDEKTSV4RRFFQ69G5FAV"]. *)
Lemma WorkflowRunId_parse_to_string_witness :
  0 <= 1777027686520646174104517696511196507 <= U128_MAX
  /\ WorkflowRunId_parse (WorkflowRunId_to_string 1777027686520646174104517696511196507)
     = inl 1777027686520646174104517696511196507.
Proof.
  assert (H : 0 <= 1777027686520646174104517696511196507 <= U128_MAX)
    by (unfold U128_MAX; rewrite Z.ones_equiv; simpl; lia).
  split; [exact H | apply WorkflowRunId_parse_to_string; exact H].
Defined.

(** Witness of [format_issue_name_injective] on issue 7, "fix". *)
Lemma format_issue_name_injective_witness :
  format_issue_name 7 "fix" = format_issue_name 7 "fix" /\ (7 = 7)%nat /\ "fix" = "fix".
Proof.
  split; [reflexivity | apply format_issue_name_injective; reflexivity].
Defined.

(** Witness of [handle_issue_merge_guard]: merging the completed issue 7 of
    the sample store records a merge. *)
Lemma handle_issue_merge_guard_witness :
  exists out tr ops',
    handle_issue_merge sample_store (Some (sample_git None sample_commit))
      (mkNumberedMergeRequest 7 false) = (out, tr, Some ops')
    /\ git_merges ops' <> git_merges (sample_git None sample_commit)
    /\ (exists issue, get_issue sample_store 7 = inl issue /\ issue_completed issue = true)
    /\ check_working_directory_clean (sample_git None sample_commit) = inl tt.
Proof.
  eexists _, _, _.
  assert (Hrun : handle_issue_merge sample_store (Some (sample_git None sample_commit))
                   (mkNumberedMergeRequest 7 false)
                 = (fst (fst (handle_issue_merge sample_store (Some (sample_git None sample_commit))
                                (mkNumberedMergeRequest 7 false))),
                    snd (fst (handle_issue_merge sample_store (Some (sample_git None sample_commit))
                                (mkNumberedMergeRequest 7 false))),
                    Some (record_merge (sample_git None sample_commit)
                            "issue/000007_fix" "main")))
    by (vm_compute; reflexivity).
  assert (Hch : git_merges (record_merge (sample_git None sample_commit) "issue/000007_fix" "main")
                <> git_merges (sample_git None sample_commit)) by (vm_compute; discriminate).
  split; [exact Hrun |]. split; [exact Hch |].
  exact (handle_issue_merge_guard _ _ _ _ _ _ Hrun Hch).
Defined.

(** Witness of [issue_current_after_work] on issue 7 of the sample store,
    whose work branch already exists. *)
Lemma issue_current_after_work_witness :
  get_issue sample_store 7 = inl (mkIssue 7 "fix" "Fix the parser" true)
  /\ handle_issue_work sample_store (Some (sample_git None sample_commit)) (mkWorkIssueRequest 7)
     = (ROk (SuccessResponse "Switched to work branch: issue/000007_fix"),
        [EvAcquire IssueStorageRead; EvRelease IssueStorageRead;
         EvAcquire GitOpsMutex; EvRelease GitOpsMutex],
        Some (with_branches (sample_git None sample_commit) "issue/000007_fix"
                (git_branches (sample_git None sample_commit))
                (git_merges (sample_git None sample_commit))))
  /\ fst (fst (handle_issue_current
                 (Some (with_branches (sample_git None sample_commit) "issue/000007_fix"
                          (git_branches (sample_git None sample_commit))
                          (git_merges (sample_git None sample_commit)))) None))
     = ROk (SuccessResponse ("Currently working on issue: " ++ format_issue_name 7 "fix")).
Proof.
  assert (H1 : get_issue sample_store 7 = inl (mkIssue 7 "fix" "Fix the parser" true))
    by reflexivity.
  assert (H2 : handle_issue_work sample_store (Some (sample_git None sample_commit))
                 (mkWorkIssueRequest 7)
               = (ROk (SuccessResponse "Switched to work branch: issue/000007_fix"),
                  [EvAcquire IssueStorageRead; EvRelease IssueStorageRead;
                   EvAcquire GitOpsMutex; EvRelease GitOpsMutex],
                  Some (with_branches (sample_git None sample_commit) "issue/000007_fix"
                          (git_branches (sample_git None sample_commit))
                          (git_merges (sample_git None sample_commit)))))
    by (vm_compute; reflexivity).
  split; [exact H1 |]. split; [exact H2 |].
  exact (proj2 (issue_current_after_work _ _ _ _ _ _ _ H1 H2)).
Defined.

(** Witness of [commit_info_panics_iff] on the short-hash line and on a
    full-hash line. *)
Lemma commit_info_panics_iff_witness :
  ascii_only short_commit = true
  /\ (commit_info_section (inl short_commit) = None
      <-> (4 <= List.length (split_on "|"%char short_commit))%nat
          /\ (String.length (nth 0 (split_on "|"%char short_commit) "") < 8)%nat)
  /\ ascii_only sample_commit = true
  /\ (commit_info_section (inl sample_commit) = None
      <-> (4 <= List.length (split_on "|"%char sample_commit))%nat
          /\ (String.length (nth 0 (split_on "|"%char sample_commit) "") < 8)%nat).
Proof.
  assert (H1 : ascii_only short_commit = true) by (vm_compute; reflexivity).
  assert (H2 : ascii_only sample_commit = true) by (vm_compute; reflexivity).
  split; [exact H1 |]. split; [exact (commit_info_panics_iff _ H1) |].
  split; [exact H2 | exact (commit_info_panics_iff _ H2)].
Defined.

(** Witness of [issue_lookup_failure] on issue 9 and name "nope", both
    missing from the sample store. *)
Lemma issue_lookup_failure_witness :
  get_issue sample_store 9 = inr (mkSahError "Issue not found: 9")
  /\ get_issue_info sample_store "nope" = inr (mkSahError "Issue not found: nope")
  /\ fst (fst (handle_issue_work sample_store None (mkWorkIssueRequest 9)))
     = ROk (ErrorResponse ("Failed to get issue 9: Issue not found: 9"))
  /\ fst (fst (MergeIssueTool_execute sample_store None (mkMergeIssueRequest "nope" true)))
     = RErr (McpHandled (mkSahError "Issue not found: nope") "get issue for merge").
Proof.
  assert (H1 : get_issue sample_store 9 = inr (mkSahError "Issue not found: 9"))
    by reflexivity.
  assert (H2 : get_issue_info sample_store "nope" = inr (mkSahError "Issue not found: nope"))
    by reflexivity.
  destruct (issue_lookup_failure sample_store None 9 "nope" true _ _ H1 H2)
    as (Hw & _ & Hm).
  split; [exact H1 |]. split; [exact H2 |].
  rewrite Hw, Hm. split; reflexivity.
Defined.
